(** * Activation steering on GPT-2: a shallow embedding of the notebooks

    The notebooks [pytorch_hooks.ipynb] (which also carries the baukit
    variant), [transformer_lens.ipynb], [custom_wrapper.ipynb] and
    [bias_editing.ipynb] all do the same thing: capture the activation of one
    module for two prompts, derive a unit steering vector from the
    difference, and add a multiple of it to the module's output while text
    is generated.

    Tensors are nested lists (batch, sequence, hidden) over a scalar
    interface with two instances: the real numbers, on which the algebraic
    properties are proved, and the binary64 floats of the kernel, on which
    the behaviour at exceptional values (division by zero) is evaluated.
    Python exceptions are the [Raise] results of an error monad. *)

From Stdlib Require Import List Arith Lia Bool.
From Stdlib Require Import Reals Lra.
From Stdlib Require PrimFloat FloatAxioms FloatOps SpecFloat.
Import ListNotations.

Set Implicit Arguments.
Set Warnings "-register-all".

(** ** Exceptions and the error monad *)

Inductive exn : Type :=
| ShapeError      (* RuntimeError: sizes of two tensors do not broadcast *)
| IndexError      (* tuple index out of range *)
| TypeError       (* an operation applied to a value of the wrong kind *)
| AttributeError  (* a missing attribute, such as [.module] of a bare block *)
| OutOfModel.     (* not an exception: Python goes on with a value that is
                     not represented here (a tensor whose rank is not 3,
                     an operation on an object of unknown kind) *)

Inductive result (A : Type) : Type :=
| Ok (a : A)
| Raise (e : exn).

Arguments Ok {A} a.
Arguments Raise {A} e.

Definition bind {A B} (m : result A) (k : A -> result B) : result B :=
  match m with
  | Ok a => k a
  | Raise e => Raise e
  end.

Definition fmap {A B} (f : A -> B) (m : result A) : result B :=
  bind m (fun a => Ok (f a)).

Declare Scope result_scope.
Delimit Scope result_scope with result.
Notation "x <- m ;; k" := (bind m (fun x => k))
  (at level 100, m at next level, right associativity) : result_scope.
Notation "' p <- m ;; k" := (bind m (fun x => match x with p => k end))
  (at level 100, p pattern, m at next level, right associativity) : result_scope.
Open Scope result_scope.

Fixpoint mapM {A B} (f : A -> result B) (xs : list A) : result (list B) :=
  match xs with
  | [] => Ok []
  | x :: xs' => y <- f x ;; ys <- mapM f xs' ;; Ok (y :: ys)
  end.

Fixpoint zipM {A B C} (f : A -> B -> result C) (xs : list A) (ys : list B)
  : result (list C) :=
  match xs, ys with
  | [], [] => Ok []
  | x :: xs', y :: ys' => z <- f x y ;; zs <- zipM f xs' ys' ;; Ok (z :: zs)
  | _, _ => Raise ShapeError
  end.

Fixpoint zip_with {A B C} (f : A -> B -> C) (xs : list A) (ys : list B)
  : list C :=
  match xs, ys with
  | x :: xs', y :: ys' => f x y :: zip_with f xs' ys'
  | _, _ => []
  end.

(** ** Scalars *)

Class Scalar (T : Type) : Type := {
  szero : T;
  sadd : T -> T -> T;
  ssub : T -> T -> T;
  smul : T -> T -> T;
  sdiv : T -> T -> T;
  ssqrt : T -> T
}.

(** Exact arithmetic.  It agrees with the tensors of the notebooks as long
    as no rounding and no exceptional value is involved; what happens at a
    zero divisor is read off the float instance below. *)
#[export] Instance R_scalar : Scalar R := {
  szero := 0%R;
  sadd := Rplus;
  ssub := Rminus;
  smul := Rmult;
  sdiv := Rdiv;
  ssqrt := sqrt
}.

(** IEEE-754 arithmetic (binary64; the notebooks run in binary32, whose
    exceptional values behave alike). *)
#[export] Instance float_scalar : Scalar PrimFloat.float := {
  szero := PrimFloat.zero;
  sadd := PrimFloat.add;
  ssub := PrimFloat.sub;
  smul := PrimFloat.mul;
  sdiv := PrimFloat.div;
  ssqrt := PrimFloat.sqrt
}.

(** ** Tensors

    A tensor of rank 3 is a batch of sequences of hidden vectors. *)

Abbreviation vector T := (list T) (only parsing).
Abbreviation matrix T := (list (list T)) (only parsing).
Abbreviation tensor T := (list (list (list T))) (only parsing).

Section Tensors.
Context {T : Type} `{Scalar T}.

Definition has_shape (B S H : nat) (t : tensor T) : Prop :=
  length t = B /\
  Forall (fun m => length m = S /\ Forall (fun r => length r = H) m) t.

(** Broadcasting along one axis: equal sizes are paired, a size-1 axis is
    repeated, anything else is a shape error.  (A nested list forgets the
    inner sizes of an empty axis, so two empty axes always agree.) *)
Definition broadcast {A B C} (f : A -> B -> result C)
    (xs : list A) (ys : list B) : result (list C) :=
  if length xs =? length ys then zipM f xs ys
  else match xs, ys with
       | [x], _ => mapM (f x) ys
       | _, [y] => mapM (fun x => f x y) xs
       | _, _ => Raise ShapeError
       end.

Definition pointwise (op : T -> T -> T) (a b : tensor T) : result (tensor T) :=
  broadcast (broadcast (broadcast (fun x y => Ok (op x y)))) a b.

(** [a + b] and [a - b] on tensors. *)
Definition tadd : tensor T -> tensor T -> result (tensor T) := pointwise sadd.
Definition tsub : tensor T -> tensor T -> result (tensor T) := pointwise ssub.

Definition tmap (f : T -> T) (t : tensor T) : tensor T :=
  map (map (map f)) t.

(** [c * t] for a Python number [c]. *)
Definition tscale (c : T) (t : tensor T) : tensor T := tmap (smul c) t.

(** [t / s] for a zero-dimensional tensor T [s]. *)
Definition tdivs (t : tensor T) (s : T) : tensor T := tmap (fun x => sdiv x s) t.

Definition ssum (l : list T) : T := fold_right sadd szero l.

Definition flatten (t : tensor T) : list T := concat (concat t).

(** [t.norm()]: the 2-norm of all the entries. *)
Definition norm (t : tensor T) : T :=
  ssqrt (ssum (map (fun x => smul x x) (flatten t))).

(** [m[-1:]] on one sequence. *)
Definition last_slice {A} (m : list A) : list A := skipn (length m - 1) m.

(** [t[:, -1:, :]] *)
Definition slice_last (t : tensor T) : tensor T := map (@last_slice (vector T)) t.

(** The cell that defines the steering vector T:
<<
    steering_vec = act_love[:,-1:,:]-act_hate[:,-1:,:]
    steering_vec /= steering_vec.norm()
>>  *)
Definition steering_vec (act_love act_hate : tensor T) : result (tensor T) :=
  d <- tsub (slice_last act_love) (slice_last act_hate) ;;
  Ok (tdivs d (norm d)).

End Tensors.

(** ** Python values at an interception point

    A transformer block returns a tuple whose first entry is the
    activation; a layer norm or a TransformerLens hook point returns the
    bare tensor.  [PObj] stands for the other entries of a block's tuple
    (cached keys and values, attention weights), of which nothing is known. *)

Section Values.
Context {T : Type} `{Scalar T}.

Inductive pyval : Type :=
| PTensor (t : tensor T)
| PTuple (items : list pyval)
| PNone
| PObj (id : nat).

(** [output[0]] *)
Definition getitem0 (output : pyval) : result pyval :=
  match output with
  | PTuple (x :: _) => Ok x
  | PTuple [] => Raise IndexError
  | PTensor [] => Raise IndexError
  | PTensor (_ :: _) => Raise OutOfModel (* entry 0 of the batch: rank 2 *)
  | PNone => Raise TypeError
  | PObj _ => Raise OutOfModel
  end.

(** [output[1:]] *)
Definition slice_from1 (output : pyval) : result pyval :=
  match output with
  | PTuple items => Ok (PTuple (tl items))
  | PTensor t => Ok (PTensor (tl t))
  | PNone => Raise TypeError
  | PObj _ => Raise OutOfModel
  end.

(** [x + steering_vec] for a tensor [steering_vec] *)
Definition padd (x : pyval) (steering_vec : tensor T) : result pyval :=
  match x with
  | PTensor t => fmap PTensor (tadd t steering_vec)
  | PTuple _ | PNone => Raise TypeError
  | PObj _ => Raise OutOfModel
  end.

(** [(x,) + rest] *)
Definition tuple_cons (x : pyval) (rest : pyval) : result pyval :=
  match rest with
  | PTuple items => Ok (PTuple (x :: items))
  | PTensor _ | PNone => Raise TypeError
  | PObj _ => Raise OutOfModel
  end.

(** The expression shared by [act_add] of pytorch_hooks.ipynb, of its
    baukit variant and by [WrappedModule.forward]:
<<
    (output[0] + steering_vec,) + output[1:]
>>  *)
Definition add_to_first (steering_vec : tensor T) (output : pyval)
  : result pyval :=
  x <- getitem0 output ;;
  y <- padd x steering_vec ;;
  rest <- slice_from1 output ;;
  tuple_cons y rest.

End Values.

Arguments pyval T : clear implicits.

(** ** Forward hooks of a [torch.nn.Module]

    A hook sees the output of the module and may touch the object it
    closes over (the [cache] list, the [Trace] object): that object is the
    memory [M] threaded through the call.  An exception leaves the memory
    as it was when it was raised. *)

Section ForwardHooks.
Context {T : Type} `{Scalar T}.
Variable M : Type.

Definition hook := pyval T -> M -> result (pyval T) * M.

Record registry : Type := {
  forward_hooks : list (nat * hook);  (* the OrderedDict [_forward_hooks] *)
  next_id : nat;                      (* [RemovableHandle.next_id] *)
  mem : M
}.

Definition no_hooks (m : M) : registry :=
  {| forward_hooks := []; next_id := 0; mem := m |}.

(** [module.register_forward_hook(h)]: returns the handle. *)
Definition register_forward_hook (h : hook) (w : registry) : nat * registry :=
  (next_id w,
   {| forward_hooks := forward_hooks w ++ [(next_id w, h)];
      next_id := S (next_id w);
      mem := mem w |}).

(** [handle.remove()] *)
Definition remove (handle : nat) (w : registry) : registry :=
  {| forward_hooks :=
       filter (fun p => negb (fst p =? handle)) (forward_hooks w);
     next_id := next_id w;
     mem := mem w |}.

(** The loop of [Module.__call__] over the hooks, in registration order:
<<
    hook_result = hook(self, args, result)
    if hook_result is not None:
        result = hook_result
>>  *)
Fixpoint run_hooks (hs : list (nat * hook)) (output : pyval T) (m : M)
  : result (pyval T) * M :=
  match hs with
  | [] => (Ok output, m)
  | (_, h) :: hs' =>
      match h output m with
      | (Ok PNone, m') => run_hooks hs' output m'
      | (Ok replaced, m') => run_hooks hs' replaced m'
      | (Raise e, m') => (Raise e, m')
      end
  end.

(** Calling the module whose own [forward] returned [output]. *)
Definition call_module (output : pyval T) (w : registry)
  : result (pyval T) * registry :=
  let (r, m') := run_hooks (forward_hooks w) output (mem w) in
  (r, {| forward_hooks := forward_hooks w; next_id := next_id w; mem := m' |}).

(** TransformerLens: [model.add_hook(name, hook)] puts a forward hook on
    the hook point, [model.reset_hooks()] removes them all. *)
Definition add_hook (h : hook) (w : registry) : registry :=
  snd (register_forward_hook h w).

Definition reset_hooks (w : registry) : registry :=
  {| forward_hooks := []; next_id := next_id w; mem := mem w |}.

End ForwardHooks.

Arguments hook T M : clear implicits.
Arguments registry T M : clear implicits.

(** ** The decoding loop

    [model.generate(..., max_new_tokens=n, do_sample=False)] belongs to the
    libraries.  What the notebooks rely on is that it runs the model once
    per new token and stops at the end-of-sequence token.  A forward
    evaluation reports, besides the token, what left the interception
    point ([Obs]); the loop collects these reports in order.  The
    notebooks only call it with a positive [max_new_tokens]; what the
    library does with a budget of zero is not modelled, and the loop
    below then returns the prompt without evaluating the model. *)

Section Decoding.
Variables Tok Obs W : Type.
Variable fwd : list Tok -> W -> result (Obs * Tok) * W.
Variable is_eos : Tok -> bool.

Fixpoint generate_from (max_new_tokens : nat) (toks : list Tok)
    (seen : list Obs) (w : W) : result (list Tok * list Obs) * W :=
  match max_new_tokens with
  | 0 => (Ok (toks, seen), w)
  | S n =>
      match fwd toks w with
      | (Ok (o, t), w') =>
          if is_eos t then (Ok (toks ++ [t], seen ++ [o]), w')
          else generate_from n (toks ++ [t]) (seen ++ [o]) w'
      | (Raise e, w') => (Raise e, w')
      end
  end.

Definition generate (max_new_tokens : nat) (toks : list Tok) (w : W)
  : result (list Tok * list Obs) * W :=
  generate_from max_new_tokens toks [] w.

(** The text a [generate] call returns. *)
Definition generated (r : result (list Tok * list Obs) * W)
  : result (list Tok) :=
  fmap fst (fst r).

End Decoding.

(** ** A model with one hooked module

    [embed] is everything the model computes before the module, [point]
    the module's own [forward], [finish] everything after it down to the
    choice of the next token. *)

Section HookedModel.
Context {T : Type} `{Scalar T}.
Variables Tok X M : Type.
Variable embed : list Tok -> X.
Variable point : X -> pyval T.
Variable finish : X -> pyval T -> Tok.

(** One forward evaluation of the model on [toks]. *)
Definition forward (toks : list Tok) (w : registry T M)
  : result (pyval T * Tok) * registry T M :=
  let x := embed toks in
  match call_module (point x) w with
  | (Ok out, w') => (Ok (out, finish x out), w')
  | (Raise e, w') => (Raise e, w')
  end.

End HookedModel.

(** ** pytorch_hooks.ipynb *)

Module PytorchHooks.
Section Notebook.
Context {T : Type} `{Scalar T}.
Variables Tok X : Type.
Variable embed : list Tok -> X.
Variable point : X -> pyval T.          (* model.transformer.h[layer_id] *)
Variable finish : X -> pyval T -> Tok.
Variable is_eos : Tok -> bool.

(** The hooks of this notebook close over the list [cache]. *)
Definition world := registry T (list (pyval T)).

(**
<<
    def cache_hook(cache):
        def hook(module, input, output):
            cache.append(output[0])
        return hook
>>  *)
Definition cache_hook : hook T (list (pyval T)) :=
  fun output cache =>
    match getitem0 output with
    | Ok x => (Ok PNone, cache ++ [x])
    | Raise e => (Raise e, cache)
    end.

(**
<<
    def act_add(steering_vec):
        def hook(module, input, output):
            return (output[0] + steering_vec,) + output[1:]
        return hook
>>  *)
Definition act_add (steering_vec : tensor T) : hook T (list (pyval T)) :=
  fun output cache => (add_to_first steering_vec output, cache).

(** The cell that reads the two activations: a fresh [cache], the hook,
    two forward evaluations, [handle.remove()], then [cache[0]] and
    [cache[1]].  An exception ends the cell where it is raised. *)
Definition get_activations (love hate : list Tok) (w : world)
  : result (pyval T * pyval T) * world :=
  let w0 := {| forward_hooks := forward_hooks w; next_id := next_id w;
               mem := [] |} in
  let (handle, w1) := register_forward_hook cache_hook w0 in
  match forward embed point finish love w1 with
  | (Raise e, w2) => (Raise e, w2)
  | (Ok _, w2) =>
      match forward embed point finish hate w2 with
      | (Raise e, w3) => (Raise e, w3)
      | (Ok _, w3) =>
          let w4 := remove handle w3 in
          match mem w4 with
          | act_love :: act_hate :: _ => (Ok (act_love, act_hate), w4)
          | _ => (Raise IndexError, w4)
          end
      end
  end.

(** The steering cell:
<<
    handle = model.transformer.h[layer_id].register_forward_hook(
                 act_add(coeff*steering_vec))
    generated_ids = model.generate(inputs, max_new_tokens=10, ...)
    handle.remove()
>>  [handle.remove()] is not reached when [generate] raises. *)
Definition steer (coeff : T) (steering_vec : tensor T)
    (max_new_tokens : nat) (toks : list Tok) (w : world)
  : result (list Tok * list (pyval T)) * world :=
  let (handle, w1) :=
    register_forward_hook (act_add (tscale coeff steering_vec)) w in
  match generate (forward embed point finish) is_eos max_new_tokens toks w1 with
  | (Ok r, w2) => (Ok r, remove handle w2)
  | (Raise e, w2) => (Raise e, w2)
  end.

End Notebook.
End PytorchHooks.

(** ** The baukit variant (second notebook of pytorch_hooks.ipynb) *)

Module Baukit.
Section Notebook.
Context {T : Type} `{Scalar T}.
Variables Tok X : Type.
Variable embed : list Tok -> X.
Variable point : X -> pyval T.
Variable finish : X -> pyval T -> Tok.
Variable is_eos : Tok -> bool.

(** The memory of the hook is the attribute [output] of the [Trace]. *)
Definition world := registry T (option (pyval T)).

(** The hook a [Trace] installs: it applies [edit_output] when there is
    one, keeps the result in [Trace.output], and returns it. *)
Definition retain_hook (edit_output : option (pyval T -> result (pyval T)))
  : hook T (option (pyval T)) :=
  fun output retained =>
    match edit_output with
    | None => (Ok output, Some output)
    | Some f =>
        match f output with
        | Ok edited => (Ok edited, Some edited)
        | Raise e => (Raise e, retained)
        end
    end.

(** [with Trace(module, edit_output=f) as cache: body]: the hook is
    removed on every exit from the block. *)
Definition with_Trace {A} (edit_output : option (pyval T -> result (pyval T)))
    (body : world -> result A * world) (w : world) : result A * world :=
  let w0 := {| forward_hooks := forward_hooks w; next_id := next_id w;
               mem := None |} in
  let (handle, w1) := register_forward_hook (retain_hook edit_output) w0 in
  let (r, w2) := body w1 in
  (r, remove handle w2).

(**
<<
    def act_add(steering_vec):
        def hook(output):
            return (output[0] + steering_vec,) + output[1:]
        return hook
>>  *)
Definition act_add (steering_vec : tensor T) : pyval T -> result (pyval T) :=
  fun output => add_to_first steering_vec output.

(**
<<
    with Trace(module) as cache:
        _ = model(inputs)
        act_love = cache.output[0]
>>  *)
Definition get_activation (toks : list Tok) (w : world)
  : result (pyval T) * world :=
  with_Trace None
    (fun w1 =>
       match forward embed point finish toks w1 with
       | (Raise e, w2) => (Raise e, w2)
       | (Ok _, w2) =>
           match mem w2 with
           | Some output => (getitem0 output, w2)
           | None => (Raise AttributeError, w2)
           end
       end) w.

(**
<<
    with Trace(module, edit_output=act_add(coeff*steering_vec)) as _:
        generated_ids = model.generate(inputs, max_new_tokens=10, ...)
>>  *)
Definition steer (coeff : T) (steering_vec : tensor T)
    (max_new_tokens : nat) (toks : list Tok) (w : world)
  : result (list Tok * list (pyval T)) * world :=
  with_Trace (Some (act_add (tscale coeff steering_vec)))
    (generate (forward embed point finish) is_eos max_new_tokens toks) w.

End Notebook.
End Baukit.

(** ** transformer_lens.ipynb *)

Module TransformerLens.
Section Notebook.
Context {T : Type} `{Scalar T}.
Variables Tok X : Type.
Variable embed : list Tok -> X.
Variable point : X -> pyval T.   (* blocks.5.hook_resid_post: a bare tensor *)
Variable finish : X -> pyval T -> Tok.
Variable is_eos : Tok -> bool.

Definition world := registry T unit.

(**
<<
    def act_add(steering_vec):
        def hook(activation, hook):
            return activation + steering_vec
        return hook
>>  *)
Definition act_add (steering_vec : tensor T) : hook T unit :=
  fun activation u => (padd activation steering_vec, u).

(**
<<
    model.add_hook(name=cache_name, hook=act_add(coeff*steering_vec))
    print(model.generate(test_sentence, max_new_tokens=10, do_sample=False))
    model.reset_hooks()
>>  *)
Definition steer (coeff : T) (steering_vec : tensor T)
    (max_new_tokens : nat) (toks : list Tok) (w : world)
  : result (list Tok * list (pyval T)) * world :=
  let w1 := add_hook (act_add (tscale coeff steering_vec)) w in
  match generate (forward embed point finish) is_eos max_new_tokens toks w1 with
  | (Ok r, w2) => (Ok r, reset_hooks w2)
  | (Raise e, w2) => (Raise e, w2)
  end.

End Notebook.
End TransformerLens.

(** ** custom_wrapper.ipynb *)

Module CustomWrapper.
Section Notebook.
Context {T : Type} `{Scalar T}.
Variables Tok X : Type.
Variable embed : list Tok -> X.
Variable point : X -> pyval T.          (* the block of the loaded model *)
Variable finish : X -> pyval T -> Tok.
Variable is_eos : Tok -> bool.

(** What [model.transformer.h[layer_id]] holds: the block itself, or a
    [WrappedModule] around what was there before, with its attributes
    [module], [output] and [steering_vec]. *)
Inductive slot : Type :=
| Block
| WrappedModule (module : slot) (output : pyval T)
                (steering_vec : option (tensor T)).

(** [WrappedModule(module)]: [output] and [steering_vec] start as [None]. *)
Definition wrap (module : slot) : slot := WrappedModule module PNone None.

(**
<<
    def forward( self, *args, **kwargs ):
        self.output = self.module( *args, **kwargs )
        if self.steering_vec is not None:
            return (self.output[0] + self.steering_vec,) + self.output[1:]
        else:
            return self.output
>>  The argument [block_output] is what the innermost block computes. *)
Fixpoint call_slot (block_output : pyval T) (s : slot)
  : result (pyval T) * slot :=
  match s with
  | Block => (Ok block_output, Block)
  | WrappedModule module output steering_vec =>
      match call_slot block_output module with
      | (Raise e, module') =>
          (Raise e, WrappedModule module' output steering_vec)
      | (Ok out, module') =>
          let self := WrappedModule module' out steering_vec in
          match steering_vec with
          | Some v => (add_to_first v out, self)
          | None => (Ok out, self)
          end
      end
  end.

(** [model.transformer.h[layer_id].steering_vec = v]; on a bare block the
    new attribute is never read. *)
Definition set_steering_vec (v : tensor T) (s : slot) : slot :=
  match s with
  | WrappedModule module output _ => WrappedModule module output (Some v)
  | Block => Block
  end.

(** [model.transformer.h[layer_id].output[0]] *)
Definition read_activation (s : slot) : result (pyval T) :=
  match s with
  | WrappedModule _ output _ => getitem0 output
  | Block => Raise AttributeError
  end.

(** [model.transformer.h[layer_id] = model.transformer.h[layer_id].module] *)
Definition unwrap (s : slot) : result slot :=
  match s with
  | WrappedModule module _ _ => Ok module
  | Block => Raise AttributeError
  end.

Definition forward (toks : list Tok) (s : slot)
  : result (pyval T * Tok) * slot :=
  let x := embed toks in
  match call_slot (point x) s with
  | (Ok out, s') => (Ok (out, finish x out), s')
  | (Raise e, s') => (Raise e, s')
  end.

(** The steering cell: set the attribute, then generate. *)
Definition steer (coeff : T) (steering_vec : tensor T)
    (max_new_tokens : nat) (toks : list Tok) (s : slot)
  : result (list Tok * list (pyval T)) * slot :=
  generate forward is_eos max_new_tokens toks
    (set_steering_vec (tscale coeff steering_vec) s).

End Notebook.
End CustomWrapper.

(** ** bias_editing.ipynb *)

Module BiasEditing.
Section Notebook.
Context {T : Type} `{Scalar T}.
Variables Tok X : Type.
Variable embed : list Tok -> X.
Variable point : X -> pyval T.   (* model.transformer.h[layer_id].ln_1 *)
Variable finish : X -> tensor T -> Tok.  (* what follows attn.c_attn *)
Variable is_eos : Tok -> bool.
Variable weight : matrix T.      (* attn.c_attn.weight: nx rows, nf columns *)
Variable nf : nat.

(** The hooks on [ln_1] and the attribute [attn.c_attn.bias].  No cell
    writes into a parameter in place: [change_bias_attn] binds the
    attribute to a new [Parameter], so the object saved as [org_bias]
    keeps its values and a bias is modelled by its values. *)
Record world : Type := {
  ln_1 : registry T (option (pyval T));
  bias : vector T
}.

(** [x @ weight] for one row [x]. *)
Fixpoint vecmat (x : vector T) (w : matrix T) : vector T :=
  match x, w with
  | xi :: x', wi :: w' => zip_with sadd (map (smul xi) wi) (vecmat x' w')
  | _, _ => repeat szero nf
  end.

(** [torch.addmm(bias, x, weight)] on one row: the bias is expanded to the
    width of the product. *)
Definition addmm (b x : vector T) : result (vector T) :=
  if length x =? 0 then Raise ShapeError
  else if negb (length x =? length weight) then Raise ShapeError
  else
    let y := vecmat x weight in
    if length b =? length y then Ok (zip_with sadd b y)
    else match b with
         | [b0] => Ok (map (sadd b0) y)
         | _ => Raise ShapeError
         end.

(** [attn.c_attn(x)] (a [Conv1D]) on a tensor of rank 3. *)
Definition c_attn (b : vector T) (x : tensor T) : result (tensor T) :=
  mapM (mapM (addmm b)) x.

(** [steering_vec.squeeze()] drops the axes of size 1.  A steering vector
    has shape (1, 1, hidden) and squeezes to a vector, or to a tensor
    without axes when hidden = 1; what a tensor of another shape squeezes
    to is not represented. *)
Inductive squeezed : Type :=
| Rank0 (x : T)
| Rank1 (v : vector T)
| OtherShape.

Definition squeeze (t : tensor T) : squeezed :=
  match t with
  | [[[x]]] => Rank0 x
  | [[v]] => Rank1 v
  | _ => OtherShape
  end.

(** [attn.c_attn] on a squeezed tensor; a [Conv1D] asks a tensor without
    axes for its last size and fails. *)
Definition c_attn_squeezed (b : vector T) (x : squeezed)
  : result (vector T) :=
  match x with
  | Rank0 _ => Raise IndexError
  | Rank1 v => addmm b v
  | OtherShape => Raise OutOfModel
  end.

(**
<<
    def reset_bias_attn(model, layer_id, org_bias):
        model.transformer.h[layer_id].attn.c_attn.bias = org_bias
>>  *)
Definition reset_bias_attn (org_bias : vector T) (w : world) : world :=
  {| ln_1 := ln_1 w; bias := org_bias |}.

(**
<<
    def change_bias_attn(model, layer_id, steering_vec):
        tilde_b = model.transformer.h[layer_id].attn.c_attn(steering_vec.squeeze())
        model.transformer.h[layer_id].attn.c_attn.bias =
            torch.nn.parameter.Parameter(tilde_b)
>>  *)
Definition change_bias_attn (steering_vec : tensor T) (w : world)
  : result unit * world :=
  match c_attn_squeezed (bias w) (squeeze steering_vec) with
  | Ok tilde_b => (Ok tt, {| ln_1 := ln_1 w; bias := tilde_b |})
  | Raise e => (Raise e, w)
  end.

(** One forward evaluation: [ln_1] with its hooks, then [c_attn] with the
    bias of the moment, then the rest of the model. *)
Definition forward (toks : list Tok) (w : world)
  : result (pyval T * Tok) * world :=
  let x := embed toks in
  let (r, reg) := call_module (point x) (ln_1 w) in
  let w' := {| ln_1 := reg; bias := bias w |} in
  match r with
  | Raise e => (Raise e, w')
  | Ok (PTensor t) =>
      match c_attn (bias w) t with
      | Ok qkv => (Ok (PTensor t, finish x qkv), w')
      | Raise e => (Raise e, w')
      end
  | Ok (PTuple _) | Ok PNone => (Raise AttributeError, w')
  | Ok (PObj _) => (Raise OutOfModel, w')
  end.

(** The cell that steers through the bias:
<<
    change_bias_attn(model, layer_id, coeff*steering_vec)
    generated_ids = model.generate(inputs, max_new_tokens=10, ...)
    reset_bias_attn(model, layer_id, org_bias)
>>  *)
Definition steer_by_bias (org_bias : vector T) (coeff : T)
    (steering_vec : tensor T) (max_new_tokens : nat) (toks : list Tok)
    (w : world) : result (list Tok * list (pyval T)) * world :=
  match change_bias_attn (tscale coeff steering_vec) w with
  | (Raise e, w1) => (Raise e, w1)
  | (Ok _, w1) =>
      match generate forward is_eos max_new_tokens toks w1 with
      | (Ok r, w2) => (Ok r, reset_bias_attn org_bias w2)
      | (Raise e, w2) => (Raise e, w2)
      end
  end.

(**
<<
    def act_add(steering_vec):
        def hook(output):
            # the output of the layernorm module is not a tuple
            return output + steering_vec
        return hook
>>  *)
Definition act_add (steering_vec : tensor T) : pyval T -> result (pyval T) :=
  fun output => padd output steering_vec.

(** [with Trace(module, edit_output=...)] around a block of work on the
    world of this notebook. *)
Definition with_Trace {A}
    (edit_output : option (pyval T -> result (pyval T)))
    (body : world -> result A * world) (w : world) : result A * world :=
  let reg0 := {| forward_hooks := forward_hooks (ln_1 w);
                 next_id := next_id (ln_1 w); mem := None |} in
  let (handle, reg1) :=
    register_forward_hook (Baukit.retain_hook edit_output) reg0 in
  let (r, w2) := body {| ln_1 := reg1; bias := bias w |} in
  (r, {| ln_1 := remove handle (ln_1 w2); bias := bias w2 |}).

(** The cell that steers at the layer norm:
<<
    with Trace(module, edit_output=act_add(coeff*steering_vec)) as _:
        generated_ids = model.generate(inputs, max_new_tokens=10, ...)
>>  *)
Definition steer_by_trace (coeff : T) (steering_vec : tensor T)
    (max_new_tokens : nat) (toks : list Tok) (w : world)
  : result (list Tok * list (pyval T)) * world :=
  with_Trace (Some (act_add (tscale coeff steering_vec)))
    (generate forward is_eos max_new_tokens toks) w.

(** The capture cell on [ln_1], whose output is the bare tensor:
<<
    with Trace(module) as cache:
        _ = model(inputs)
        act_love = cache.output
>>  *)
Definition get_activation (toks : list Tok) (w : world)
  : result (pyval T) * world :=
  with_Trace None
    (fun w1 =>
       match forward toks w1 with
       | (Raise e, w2) => (Raise e, w2)
       | (Ok _, w2) =>
           match mem (ln_1 w2) with
           | Some output => (Ok output, w2)
           | None => (Raise AttributeError, w2)
           end
       end) w.

End Notebook.
End BiasEditing.

(** ** Reference definitions used in the statements *)

Section Reference.
Context {T : Type} `{Scalar T}.

(** What broadcasting a row [v] over a tensor yields: [v] combined into
    every position of every sequence. *)
Definition on_rows (op : T -> T -> T) (v : vector T) (t : tensor T)
  : tensor T :=
  map (map (fun r => zip_with op r v)) t.

(** The last position of the first tensor minus the last position of the
    second, sequence by sequence. *)
Definition last_position_difference (a b : tensor T) : tensor T :=
  zip_with (fun ma mb => [zip_with ssub (last ma []) (last mb [])]) a b.

(** A block output of hidden size [Hd]: a tuple whose first entry is a
    tensor with rows of length [Hd]. *)
Definition block_output (Hd : nat) (act : tensor T) (rest : list (pyval T))
    (out : pyval T) : Prop :=
  out = PTuple (PTensor act :: rest) /\
  exists B S, has_shape B S Hd act.

End Reference.

Section ReferenceDecoding.
Variables Tok Obs : Type.
Variable step : list Tok -> Obs * Tok.
Variable is_eos : Tok -> bool.

(** Greedy decoding over a pure forward evaluation [step]. *)
Fixpoint decode_from (max_new_tokens : nat) (toks : list Tok)
    (seen : list Obs) : list Tok * list Obs :=
  match max_new_tokens with
  | 0 => (toks, seen)
  | S n =>
      let (o, t) := step toks in
      if is_eos t then (toks ++ [t], seen ++ [o])
      else decode_from n (toks ++ [t]) (seen ++ [o])
  end.

Definition decode (max_new_tokens : nat) (toks : list Tok)
  : list Tok * list Obs :=
  decode_from max_new_tokens toks [].

End ReferenceDecoding.

Section ReferenceTrace.
Variables Tok Obs W : Type.

(** A generation call that succeeded, left the state as [w], produced at
    most [n] new tokens, and evaluated [step] once per new token: the
    [i]-th evaluation ran on the prompt followed by the first [i] new
    tokens, what it let through is the [i]-th observation and what it
    chose is the [i]-th new token. *)
Definition one_step_per_token (step : list Tok -> Obs * Tok) (n : nat)
    (toks : list Tok) (w : W) (r : result (list Tok * list Obs) * W) : Prop :=
  exists new obs,
    r = (Ok (toks ++ new, obs), w) /\
    length obs = length new /\
    length new <= n /\
    forall i, i < length new ->
      nth_error obs i = Some (fst (step (toks ++ firstn i new))) /\
      nth_error new i = Some (snd (step (toks ++ firstn i new))).

End ReferenceTrace.

Section ReferenceSteering.
Context {T : Type} `{Scalar T}.
Variables Tok X : Type.
Variable embed : list Tok -> X.
Variable finish : X -> pyval T -> Tok.

(** A forward evaluation in which [out x] leaves the interception point. *)
Definition step_with (out : X -> pyval T) : list Tok -> pyval T * Tok :=
  fun toks => let x := embed toks in (out x, finish x (out x)).

(** The steered output of a block: the activation plus [coeff] times the
    row [r] at every position, paired again with the other entries. *)
Definition steered_tuple (coeff : T) (r : vector T)
    (act : X -> tensor T) (rest : X -> list (pyval T)) : X -> pyval T :=
  fun x => PTuple (PTensor (on_rows sadd (map (smul coeff) r) (act x))
                   :: rest x).

(** The steered output of a point that returns the bare tensor. *)
Definition steered_tensor (coeff : T) (r : vector T)
    (act : X -> tensor T) : X -> pyval T :=
  fun x => PTensor (on_rows sadd (map (smul coeff) r) (act x)).

End ReferenceSteering.

Section ReferenceArithmetic.

(** The sum of the squares of a list of reals: the square of a norm. *)
Definition sum_squares (l : list R) : R :=
  ssum (map (fun x => smul x x) l).

(** A float that is zero, of either sign. *)
Definition float_zero (x : PrimFloat.float) : Prop :=
  x = PrimFloat.zero \/ x = PrimFloat.neg_zero.

(** What [attn.c_attn] returns on a tensor [t] of rows as long as the
    weight has rows, under a bias [b] as long as the weight has columns:
    [b + row @ weight] at every position. *)
Definition c_attn_value (weight : matrix R) (nf : nat) (b : vector R)
    (t : tensor R) : tensor R :=
  map (map (fun row =>
    zip_with Rplus b (BiasEditing.vecmat nf row weight))) t.

End ReferenceArithmetic.

(** ** Reference definitions for the further properties *)

Section ReferenceMechanisms.
Context {T : Type} `{Scalar T}.
Variables Tok X : Type.
Variable embed : list Tok -> X.
Variable point : X -> pyval T.
Variable finish : X -> pyval T -> Tok.

(** What a forward evaluation yields when [v] is added to the first entry
    of the block's output, by whatever mechanism: the steered tuple and
    the token chosen from it, or the exception of the addition. *)
Definition steered_forward (v : tensor T) (toks : list Tok)
  : result (pyval T * Tok) :=
  match add_to_first v (point (embed toks)) with
  | Ok out => Ok (out, finish (embed toks) out)
  | Raise e => Raise e
  end.

End ReferenceMechanisms.

(** * Properties *)

Unset Implicit Arguments.

(** ** The error monad and broadcasting *)

Section MonadFacts.
Variables A B C : Type.

Lemma mapM_pure (f : A -> result B) (g : A -> B) (xs : list A) :
  (forall x, In x xs -> f x = Ok (g x)) ->
  mapM f xs = Ok (map g xs).
Proof.
  induction xs as [|x xs IH]; intros Hf; simpl; [reflexivity|].
  rewrite (Hf x (or_introl eq_refl)); simpl.
  rewrite IH by (intros y Hy; apply Hf; right; exact Hy).
  reflexivity.
Qed.

Lemma zipM_pure (f : A -> B -> result C) (g : A -> B -> C) :
  forall xs ys,
    length xs = length ys ->
    (forall x y, In (x, y) (combine xs ys) -> f x y = Ok (g x y)) ->
    zipM f xs ys = Ok (zip_with g xs ys).
Proof.
  induction xs as [|x xs IH]; intros [|y ys] Hlen Hf; simpl in *;
    try discriminate; [reflexivity|].
  rewrite (Hf x y (or_introl eq_refl)); simpl.
  rewrite IH; [reflexivity | lia | intros; apply Hf; right; assumption].
Qed.

Lemma broadcast_same (f : A -> B -> result C) xs ys :
  length xs = length ys -> broadcast f xs ys = zipM f xs ys.
Proof.
  intros Hlen; unfold broadcast.
  rewrite Hlen, Nat.eqb_refl; reflexivity.
Qed.

Lemma broadcast_right1 (f : A -> B -> result C) xs y :
  broadcast f xs [y] = mapM (fun x => f x y) xs.
Proof.
  unfold broadcast.
  destruct xs as [|x1 [|x2 xs]]; simpl; try reflexivity.
Qed.

End MonadFacts.

Lemma zip_with_length {A B C} (f : A -> B -> C) :
  forall xs ys, length xs = length ys ->
    length (zip_with f xs ys) = length xs.
Proof.
  induction xs as [|x xs IH]; intros [|y ys] Hlen; simpl in *;
    try discriminate; [reflexivity|].
  rewrite IH; [reflexivity | lia].
Qed.

(** ** Adding a steering vector of shape (1, 1, H) *)

Section SteeringShape.
Context {T : Type} `{Scalar T}.

Lemma pointwise_row (op : T -> T -> T) B S Hd (t : tensor T) (v : vector T) :
  has_shape B S Hd t -> length v = Hd ->
  pointwise op t [[v]] = Ok (on_rows op v t).
Proof.
  intros [_ Ht] Hv. unfold pointwise, on_rows.
  rewrite broadcast_right1.
  apply mapM_pure. intros m Hm.
  rewrite broadcast_right1.
  apply mapM_pure. intros r Hr.
  rewrite Forall_forall in Ht. destruct (Ht m Hm) as [_ Hrows].
  rewrite Forall_forall in Hrows.
  rewrite broadcast_same by (rewrite (Hrows r Hr); symmetry; exact Hv).
  apply zipM_pure; [rewrite (Hrows r Hr); symmetry; exact Hv | reflexivity].
Qed.

Lemma on_rows_shape (op : T -> T -> T) B S Hd (t : tensor T) (v : vector T) :
  has_shape B S Hd t -> length v = Hd ->
  has_shape B S Hd (on_rows op v t).
Proof.
  intros [HB Ht] Hv. unfold on_rows. split.
  - rewrite length_map; exact HB.
  - rewrite Forall_map. eapply Forall_impl; [|exact Ht].
    intros m [HS Hrows]. split.
    + rewrite length_map; exact HS.
    + rewrite Forall_map. eapply Forall_impl; [|exact Hrows].
      intros r Hr. simpl. rewrite zip_with_length; congruence.
Qed.

End SteeringShape.

(** ** The decoding loop *)

Section DecodingTrace.
Variables Tok Obs W : Type.
Variable fwd : list Tok -> W -> result (Obs * Tok) * W.
Variable is_eos : Tok -> bool.
Variable step : list Tok -> Obs * Tok.
Variable inv : W -> Prop.

Hypothesis fwd_step : forall toks w,
  inv w -> exists w', fwd toks w = (Ok (step toks), w') /\ inv w'.

(** When every forward evaluation succeeds as [step] and keeps the
    invariant, generation is the pure decoding loop over [step]. *)
Lemma generate_from_decode : forall n toks seen w,
  inv w ->
  exists w',
    generate_from fwd is_eos n toks seen w =
    (Ok (decode_from step is_eos n toks seen), w') /\ inv w'.
Proof.
  induction n as [|n IH]; intros toks seen w Hw; simpl.
  - exists w; split; [reflexivity | exact Hw].
  - destruct (fwd_step toks w Hw) as (w' & -> & Hw').
    destruct (step toks) as [o t].
    destruct (is_eos t).
    + exists w'; split; [reflexivity | exact Hw'].
    + apply IH; exact Hw'.
Qed.

End DecodingTrace.

Section DecodeFacts.
Variables Tok Obs : Type.
Variable step : list Tok -> Obs * Tok.
Variable is_eos : Tok -> bool.

(** The pure loop evaluates [step] once per new token, each time on the
    text produced so far. *)
Lemma decode_from_trace : forall n toks seen,
  exists new obs,
    decode_from step is_eos n toks seen = (toks ++ new, seen ++ obs) /\
    length new = length obs /\
    length new <= n /\
    forall i, i < length new ->
      nth_error obs i = Some (fst (step (toks ++ firstn i new))) /\
      nth_error new i = Some (snd (step (toks ++ firstn i new))).
Proof.
  induction n as [|n IH]; intros toks seen; simpl.
  - exists [], []. rewrite !app_nil_r.
    repeat split; simpl in *; try lia.
  - destruct (step toks) as [o t] eqn:Hstep.
    destruct (is_eos t).
    + exists [t], [o].
      assert (Hi0 : forall i, i < length [t] -> i = 0)
        by (simpl; intros; lia).
      repeat split; simpl; try lia;
        rewrite (Hi0 i) by assumption; simpl;
        rewrite app_nil_r, Hstep; reflexivity.
    + destruct (IH (toks ++ [t]) (seen ++ [o]))
        as (new & obs & Heq & Hlen & Hn & Hnth).
      exists (t :: new), (o :: obs).
      rewrite Heq, <- !app_assoc. simpl.
      repeat split; try lia.
      * destruct i as [|i]; simpl.
        -- rewrite app_nil_r, Hstep; reflexivity.
        -- destruct (Hnth i) as [Ho _]; [simpl in *; lia|].
           rewrite Ho, <- app_assoc; reflexivity.
      * destruct i as [|i]; simpl.
        -- rewrite app_nil_r, Hstep; reflexivity.
        -- destruct (Hnth i) as [_ Ht]; [simpl in *; lia|].
           rewrite Ht, <- app_assoc; reflexivity.
Qed.

End DecodeFacts.

Section GenerateTrace.
Variables Tok Obs W : Type.
Variable fwd : list Tok -> W -> result (Obs * Tok) * W.
Variable is_eos : Tok -> bool.
Variable step : list Tok -> Obs * Tok.

Lemma generate_one_step_per_token (w : W) :
  (forall toks, fwd toks w = (Ok (step toks), w)) ->
  forall n toks,
    one_step_per_token step n toks w (generate fwd is_eos n toks w).
Proof.
  intros Hfwd n toks. unfold generate.
  destruct (generate_from_decode _ _ _ fwd is_eos step (fun w' => w' = w))
    with (n := n) (toks := toks) (seen := @nil Obs) (w := w)
    as (w' & -> & ->);
    [intros ? ? ->; eexists; split; [apply Hfwd | reflexivity]
    | reflexivity |].
  destruct (decode_from_trace _ _ step is_eos n toks [])
    as (new & obs & Heq & Hlen & Hn & Hnth).
  exists new, obs. rewrite Heq. simpl.
  repeat split; auto.
  - apply Hnth; assumption.
  - apply Hnth; assumption.
Qed.

End GenerateTrace.

(** ** One call of a hooked module *)

Section HookCalls.
Context {T : Type} `{Scalar T}.

Lemma add_to_first_block Hd (r : vector T) act rest out :
  block_output Hd act rest out -> length r = Hd ->
  add_to_first [[r]] out = Ok (PTuple (PTensor (on_rows sadd r act) :: rest)).
Proof.
  intros [-> (B & S & Hact)] Hr.
  unfold add_to_first; simpl.
  unfold tadd. rewrite (pointwise_row sadd _ _ _ _ _ Hact Hr). reflexivity.
Qed.

Lemma padd_tensor B S Hd (r : vector T) (act : tensor T) :
  has_shape B S Hd act -> length r = Hd ->
  padd (PTensor act) [[r]] = Ok (PTensor (on_rows sadd r act)).
Proof.
  intros Hact Hr. simpl.
  unfold tadd. rewrite (pointwise_row sadd _ _ _ _ _ Hact Hr). reflexivity.
Qed.

Lemma tscale_row (c : T) (r : vector T) :
  tscale c [[r]] = [[map (smul c) r]].
Proof. reflexivity. Qed.

(** A registry whose only hook never touches the memory and replaces the
    output [out] by [out'] hands [out'] on and is left as it was. *)
Lemma call_module_single M (h : hook T M) (id : nat) (w : registry T M)
    out out' :
  forward_hooks w = [(id, h)] ->
  h out (mem w) = (Ok out', mem w) ->
  out' <> PNone ->
  call_module out w = (Ok out', w).
Proof.
  intros Hhooks Hh Hnone. unfold call_module.
  rewrite Hhooks. simpl. rewrite Hh.
  destruct w as [hs nid m]; simpl in *.
  destruct out'; try congruence; subst; reflexivity.
Qed.

Lemma call_module_no_hooks M (w : registry T M) out :
  forward_hooks w = [] -> call_module out w = (Ok out, w).
Proof.
  intros Hhooks. unfold call_module. rewrite Hhooks. simpl.
  destruct w; simpl in *; subst; reflexivity.
Qed.

End HookCalls.

(** ** The injection hooks *)

Section Injection.
Context {T : Type} `{Scalar T}.

(** C7.  When the output of the interception point is a tuple whose first
    entry is the activation tensor, the injection of pytorch_hooks.ipynb,
    of its baukit variant and of [WrappedModule.forward] returns a tuple
    whose first entry is the activation plus [coeff] times the steering
    row at every position, of the same shape, followed by the other
    entries of the original tuple, untouched; the hook leaves the [cache]
    alone and the wrapper keeps the original tuple as its [output]. *)
Theorem act_add_keeps_tuple_packaging
    (B S Hd : nat) (coeff : T) (r : vector T) (act : tensor T)
    (rest : list (pyval T)) (cache : list (pyval T)) (saved : pyval T) :
  has_shape B S Hd act ->
  length r = Hd ->
  let output := PTuple (PTensor act :: rest) in
  let steered := on_rows sadd (map (smul coeff) r) act in
  let v := tscale coeff [[r]] in
  PytorchHooks.act_add v output cache
    = (Ok (PTuple (PTensor steered :: rest)), cache) /\
  Baukit.act_add v output = Ok (PTuple (PTensor steered :: rest)) /\
  CustomWrapper.call_slot output
      (CustomWrapper.WrappedModule CustomWrapper.Block saved (Some v))
    = (Ok (PTuple (PTensor steered :: rest)),
       CustomWrapper.WrappedModule CustomWrapper.Block output (Some v)) /\
  has_shape B S Hd steered.
Proof.
  intros Hact Hr output steered v.
  assert (Hr' : length (map (smul coeff) r) = Hd)
    by (rewrite length_map; exact Hr).
  assert (Hout : block_output Hd act rest output)
    by (split; [reflexivity | exists B, S; exact Hact]).
  assert (Hadd : add_to_first v output
                 = Ok (PTuple (PTensor steered :: rest)))
    by (apply (add_to_first_block Hd _ act rest output Hout Hr')).
  repeat split.
  - unfold PytorchHooks.act_add. rewrite Hadd. reflexivity.
  - exact Hadd.
  - simpl CustomWrapper.call_slot. fold output. fold v.
    rewrite Hadd. reflexivity.
  - destruct (on_rows_shape sadd B S Hd act _ Hact Hr') as [HB _]. exact HB.
  - destruct (on_rows_shape sadd B S Hd act _ Hact Hr') as [_ Hrows]. exact Hrows.
Qed.

End Injection.

Lemma act_add_keeps_tuple_packaging_witness :
  let act : tensor R := [[[1; 2]; [3; 4]]]%R in
  let rest : list (pyval R) := [PObj 0; PNone] in
  let steered := on_rows sadd (map (smul 10%R) [5; 6]%R) act in
  let v := tscale 10%R [[[5; 6]%R]] in
  PytorchHooks.act_add v (PTuple (PTensor act :: rest)) []
    = (Ok (PTuple (PTensor steered :: rest)), []) /\
  Baukit.act_add v (PTuple (PTensor act :: rest))
    = Ok (PTuple (PTensor steered :: rest)) /\
  CustomWrapper.call_slot (PTuple (PTensor act :: rest))
      (CustomWrapper.WrappedModule CustomWrapper.Block PNone (Some v))
    = (Ok (PTuple (PTensor steered :: rest)),
       CustomWrapper.WrappedModule CustomWrapper.Block
         (PTuple (PTensor act :: rest)) (Some v)) /\
  has_shape 1 2 2 steered.
Proof.
  apply (act_add_keeps_tuple_packaging 1 2 2 10%R [5; 6]%R
           [[[1; 2]; [3; 4]]]%R [PObj 0; PNone] [] PNone).
  - split; [reflexivity|].
    repeat constructor.
  - reflexivity.
Defined.

(** ** Injection during generation *)

Section InjectionWhileGenerating.
Context {T : Type} `{Scalar T}.
Variables Tok X : Type.
Variable embed : list Tok -> X.
Variable finish : X -> pyval T -> Tok.
Variable is_eos : Tok -> bool.

(** One forward evaluation with the [act_add] hook of pytorch_hooks.ipynb
    as the only hook of the block. *)
Lemma forward_act_add_tuple Hd coeff (r : vector T) point act rest
    (w : PytorchHooks.world) id :
  length r = Hd ->
  (forall x, block_output Hd (act x) (rest x) (point x)) ->
  forward_hooks w = [(id, PytorchHooks.act_add (tscale coeff [[r]]))] ->
  forall toks,
    forward embed point finish toks w =
    (Ok (step_with embed finish (steered_tuple coeff r act rest) toks), w).
Proof.
  intros Hr Hpoint Hhooks toks. unfold forward, step_with, steered_tuple.
  rewrite (call_module_single _ _ id w (point (embed toks))
             (PTuple (PTensor (on_rows sadd (map (smul coeff) r)
                                 (act (embed toks))) :: rest (embed toks)))
             Hhooks).
  - reflexivity.
  - unfold PytorchHooks.act_add. rewrite tscale_row.
    rewrite (add_to_first_block Hd _ _ _ _ (Hpoint (embed toks)))
      by (rewrite length_map; exact Hr).
    reflexivity.
  - discriminate.
Qed.

(** The same for the hook of transformer_lens.ipynb on a hook point that
    returns the bare tensor. *)
Lemma forward_act_add_tensor Hd coeff (r : vector T) point act
    (w : TransformerLens.world) id :
  length r = Hd ->
  (forall x, point x = PTensor (act x) /\
             exists B S, has_shape B S Hd (act x)) ->
  forward_hooks w = [(id, TransformerLens.act_add (tscale coeff [[r]]))] ->
  forall toks,
    forward embed point finish toks w =
    (Ok (step_with embed finish (steered_tensor coeff r act) toks), w).
Proof.
  intros Hr Hpoint Hhooks toks. unfold forward, step_with, steered_tensor.
  destruct (Hpoint (embed toks)) as [Hout (B & S & Hact)].
  rewrite (call_module_single _ _ id w (point (embed toks))
             (PTensor (on_rows sadd (map (smul coeff) r) (act (embed toks))))
             Hhooks).
  - reflexivity.
  - unfold TransformerLens.act_add. rewrite tscale_row, Hout.
    rewrite (padd_tensor B S Hd _ _ Hact) by (rewrite length_map; exact Hr).
    destruct (mem w); reflexivity.
  - discriminate.
Qed.

(** C1.  With [act_add(coeff*steering_vec)] registered on the block
    (pytorch_hooks.ipynb) or added to the hook point
    (transformer_lens.ipynb), every forward evaluation lets the activation
    plus [coeff] times the steering row through and leaves the hook in
    place; a generation call therefore succeeds with one such evaluation
    per new token, the [i]-th on the prompt followed by the first [i] new
    tokens, each new token being chosen from the steered activation of its
    own evaluation. *)
Theorem act_add_applies_on_every_forward_evaluation
    (Hd : nat) (coeff : T) (r : vector T)
    (block : X -> pyval T) (act : X -> tensor T) (rest : X -> list (pyval T))
    (resid : X -> pyval T) (cache : list (pyval T)) :
  length r = Hd ->
  (forall x, block_output Hd (act x) (rest x) (block x)) ->
  (forall x, resid x = PTensor (act x) /\
             exists B S, has_shape B S Hd (act x)) ->
  let w_hook :=
    snd (register_forward_hook
           (PytorchHooks.act_add (tscale coeff [[r]])) (no_hooks cache)) in
  let w_lens :=
    add_hook (TransformerLens.act_add (tscale coeff [[r]])) (no_hooks tt) in
  let step_hook := step_with embed finish (steered_tuple coeff r act rest) in
  let step_lens := step_with embed finish (steered_tensor coeff r act) in
  (forall toks,
      forward embed block finish toks w_hook = (Ok (step_hook toks), w_hook))
  /\
  (forall n toks,
      one_step_per_token step_hook n toks w_hook
        (generate (forward embed block finish) is_eos n toks w_hook))
  /\
  (forall toks,
      forward embed resid finish toks w_lens = (Ok (step_lens toks), w_lens))
  /\
  (forall n toks,
      one_step_per_token step_lens n toks w_lens
        (generate (forward embed resid finish) is_eos n toks w_lens)).
Proof.
  intros Hr Hblock Hresid w_hook w_lens step_hook step_lens.
  assert (Hhook : forall toks,
    forward embed block finish toks w_hook = (Ok (step_hook toks), w_hook)).
  { apply (forward_act_add_tuple Hd coeff r block act rest w_hook 0 Hr Hblock).
    reflexivity. }
  assert (Hlens : forall toks,
    forward embed resid finish toks w_lens = (Ok (step_lens toks), w_lens)).
  { apply (forward_act_add_tensor Hd coeff r resid act w_lens 0 Hr Hresid).
    reflexivity. }
  repeat split.
  - exact Hhook.
  - intros n toks. apply generate_one_step_per_token. exact Hhook.
  - exact Hlens.
  - intros n toks. apply generate_one_step_per_token. exact Hlens.
Qed.

End InjectionWhileGenerating.

Lemma act_add_applies_on_every_forward_evaluation_witness :
  let embed := fun toks : list nat => toks in
  let finish := fun (x : list nat) (out : pyval R) => length x in
  let is_eos := fun t : nat => t =? 3 in
  let act := fun x : list nat => [[[1; 2]]]%R in
  let rest := fun x : list nat => [PObj 0 : pyval R] in
  let block := fun x : list nat => PTuple (PTensor (act x) :: rest x) in
  let resid := fun x : list nat => PTensor (act x) in
  let r := [5; 6]%R in
  let w_hook :=
    snd (register_forward_hook
           (PytorchHooks.act_add (tscale 10%R [[r]])) (no_hooks [])) in
  let w_lens :=
    add_hook (TransformerLens.act_add (tscale 10%R [[r]])) (no_hooks tt) in
  let step_hook := step_with embed finish (steered_tuple 10%R r act rest) in
  let step_lens := step_with embed finish (steered_tensor 10%R r act) in
  (forall toks,
      forward embed block finish toks w_hook = (Ok (step_hook toks), w_hook))
  /\
  (forall n toks,
      one_step_per_token step_hook n toks w_hook
        (generate (forward embed block finish) is_eos n toks w_hook))
  /\
  (forall toks,
      forward embed resid finish toks w_lens = (Ok (step_lens toks), w_lens))
  /\
  (forall n toks,
      one_step_per_token step_lens n toks w_lens
        (generate (forward embed resid finish) is_eos n toks w_lens)).
Proof.
  intros embed finish is_eos act rest block resid r.
  apply (act_add_applies_on_every_forward_evaluation
           nat (list nat) embed finish is_eos 2 10%R r block act rest resid []).
  - reflexivity.
  - intros x. split; [reflexivity|]. exists 1, 1. repeat constructor.
  - intros x. split; [reflexivity|]. exists 1, 1. repeat constructor.
Defined.

(** ** Capture *)

Section Capture.
Context {T : Type} `{Scalar T}.

(** A hook registered last runs on what the earlier hooks let through. *)
Lemma run_hooks_app M (hs : list (nat * hook T M)) id (h : hook T M) :
  forall out m,
    run_hooks (hs ++ [(id, h)]) out m =
    match run_hooks hs out m with
    | (Ok o, m') => run_hooks [(id, h)] o m'
    | (Raise e, m') => (Raise e, m')
    end.
Proof.
  induction hs as [|[i g] hs IH]; intros out m.
  - reflexivity.
  - simpl app. cbn [run_hooks].
    destruct (g out m) as [[o|e] m']; [|reflexivity].
    destruct o; apply IH.
Qed.

(** [cache_hook] as the last hook: what the module hands on is what it
    hands on without it, and the first entry of that value is appended to
    the cache. *)
Lemma cache_hook_observes (w : registry T (list (pyval T))) out o x w' :
  call_module out w = (Ok o, w') ->
  getitem0 o = Ok x ->
  call_module out (snd (register_forward_hook PytorchHooks.cache_hook w)) =
  (Ok o,
   {| forward_hooks := forward_hooks w ++ [(next_id w, PytorchHooks.cache_hook)];
      next_id := Datatypes.S (next_id w);
      mem := mem w' ++ [x] |}).
Proof.
  intros Hcall Hx. unfold call_module in *.
  cbn [snd register_forward_hook forward_hooks mem next_id].
  rewrite run_hooks_app.
  destruct (run_hooks (forward_hooks w) out (mem w)) as [[o'|e] m'];
    inversion Hcall; subst; clear Hcall.
  cbn [run_hooks mem]. unfold PytorchHooks.cache_hook at 1.
  rewrite Hx. reflexivity.
Qed.

(** The hook of a [Trace] without [edit_output], as the last hook. *)
Lemma retain_hook_observes (w : registry T (option (pyval T))) out o w' :
  call_module out w = (Ok o, w') ->
  call_module out
    (snd (register_forward_hook (Baukit.retain_hook None) w)) =
  (Ok o,
   {| forward_hooks :=
        forward_hooks w ++ [(next_id w, Baukit.retain_hook None)];
      next_id := Datatypes.S (next_id w);
      mem := Some o |}).
Proof.
  intros Hcall. unfold call_module in *.
  cbn [snd register_forward_hook forward_hooks mem next_id].
  rewrite run_hooks_app.
  destruct (run_hooks (forward_hooks w) out (mem w)) as [[o'|e] m'];
    inversion Hcall; subst; clear Hcall.
  cbn [run_hooks Baukit.retain_hook]. destruct o; reflexivity.
Qed.

End Capture.

Section CaptureWhileEvaluating.
Context {T : Type} `{Scalar T}.
Variables Tok X : Type.
Variable embed : list Tok -> X.

(** C8.  Capture does not alter what it observes.  With [cache_hook]
    registered on the block (pytorch_hooks.ipynb), a forward evaluation
    that hands [out] on and chooses [tok] without the hook hands on the
    same [out] and chooses the same [tok] with it, and the first entry of
    [out] is appended to the cache.  With a [Trace] without [edit_output]
    on the layer norm (bias_editing.ipynb) the evaluation likewise hands
    on the same [out] and chooses the same [tok]; the [Trace] holds [out]
    and the bias is as before. *)
Theorem capture_is_observational
    (block : X -> pyval T) (finish : X -> pyval T -> Tok)
    (ln : X -> pyval T) (finish_attn : X -> tensor T -> Tok)
    (weight : matrix T) (nf : nat) :
  (forall (w : PytorchHooks.world) toks out tok w' x,
      forward embed block finish toks w = (Ok (out, tok), w') ->
      getitem0 out = Ok x ->
      exists w1,
        forward embed block finish toks
          (snd (register_forward_hook PytorchHooks.cache_hook w))
          = (Ok (out, tok), w1) /\
        mem w1 = mem w' ++ [x])
  /\
  (forall (w : BiasEditing.world) toks out tok w',
      BiasEditing.forward embed ln finish_attn weight nf toks w
        = (Ok (out, tok), w') ->
      exists w1,
        BiasEditing.forward embed ln finish_attn weight nf toks
          {| BiasEditing.ln_1 :=
               snd (register_forward_hook (Baukit.retain_hook None)
                      (BiasEditing.ln_1 w));
             BiasEditing.bias := BiasEditing.bias w |}
          = (Ok (out, tok), w1) /\
        mem (BiasEditing.ln_1 w1) = Some out /\
        BiasEditing.bias w1 = BiasEditing.bias w).
Proof.
  split.
  - intros w toks out tok w' x Hfwd Hx. unfold forward in *.
    destruct (call_module (block (embed toks)) w) as [[o|e] w0] eqn:Hcall;
      inversion Hfwd; subst; clear Hfwd.
    rewrite (cache_hook_observes w _ _ x _ Hcall Hx).
    eexists; split; reflexivity.
  - intros w toks out tok w' Hfwd. unfold BiasEditing.forward in *.
    cbn [BiasEditing.ln_1 BiasEditing.bias].
    destruct (call_module (ln (embed toks)) (BiasEditing.ln_1 w))
      as [[o|e] w0] eqn:Hcall; [|inversion Hfwd].
    rewrite (retain_hook_observes _ _ _ _ Hcall).
    destruct o as [t| | |]; try (inversion Hfwd; fail).
    destruct (BiasEditing.c_attn weight nf (BiasEditing.bias w) t);
      inversion Hfwd; subst; clear Hfwd.
    eexists; repeat split; reflexivity.
Qed.

End CaptureWhileEvaluating.

Lemma capture_is_observational_witness :
  let embed := fun toks : list nat => toks in
  let block := fun x : list nat =>
    PTuple [PTensor [[[1; 2]]]%R; PObj 0] : pyval R in
  let finish := fun (x : list nat) (out : pyval R) => length x in
  let ln := fun x : list nat => PTensor [[[1; 2]]]%R : pyval R in
  let finish_attn := fun (x : list nat) (out : tensor R) => length x in
  let weight := [[1; 0; 1]; [0; 1; 1]]%R in
  (exists w1,
      forward embed block finish [7]
        (snd (register_forward_hook PytorchHooks.cache_hook (no_hooks [])))
        = (Ok (block [7], 1), w1) /\
      mem w1 = [] ++ [PTensor [[[1; 2]]]%R])
  /\
  (exists w1,
      BiasEditing.forward embed ln finish_attn weight 3 [7]
        {| BiasEditing.ln_1 :=
             snd (register_forward_hook (Baukit.retain_hook None)
                    (no_hooks None));
           BiasEditing.bias := [0; 0; 0]%R |}
        = (Ok (ln [7], 1), w1) /\
      mem (BiasEditing.ln_1 w1) = Some (ln [7]) /\
      BiasEditing.bias w1 = [0; 0; 0]%R).
Proof.
  intros embed block finish ln finish_attn weight.
  destruct (capture_is_observational nat (list nat) embed block finish
              ln finish_attn weight 3) as [Hcache Htrace].
  split.
  - apply (Hcache (no_hooks []) [7] (block [7]) 1 (no_hooks [])
             (PTensor [[[1; 2]]]%R)); reflexivity.
  - apply (Htrace
             {| BiasEditing.ln_1 := no_hooks None;
                BiasEditing.bias := [0; 0; 0]%R |}
             [7] (ln [7]) 1
             {| BiasEditing.ln_1 := no_hooks None;
                BiasEditing.bias := [0; 0; 0]%R |}).
    reflexivity.
Defined.

(** ** The wrapper *)

Section Wrapper.
Context {T : Type} `{Scalar T}.
Variables Tok X : Type.
Variable embed : list Tok -> X.
Variable point : X -> pyval T.
Variable finish : X -> pyval T -> Tok.

(** C10.  A [WrappedModule] around the block keeps the last evaluation
    only.  On a block whose output is a tuple headed by an activation of
    the hidden size of the steering row [r]: whatever the wrapper held
    before, a forward evaluation with [steering_vec] set returns the tuple
    headed by the activation plus [r] at every position, and stores the
    block's own tuple, headed by the activation itself, as [output]; with
    [steering_vec] unset it returns and stores the block's own tuple.  A
    second forward evaluation overwrites what the first one stored, so
    that reading [output[0]] after two evaluations yields the activation of
    the second one, unsteered. *)
Theorem WrappedModule_keeps_last_output
    (saved : pyval T) (Hd : nat) (r : vector T)
    (act : X -> tensor T) (rest : X -> list (pyval T))
    (toks1 toks2 : list Tok) :
  length r = Hd ->
  (forall x, block_output Hd (act x) (rest x) (point x)) ->
  let x1 := embed toks1 in
  let x2 := embed toks2 in
  let original := fun x => PTuple (PTensor (act x) :: rest x) in
  let steered := fun x =>
    PTuple (PTensor (on_rows sadd r (act x)) :: rest x) in
  let wrapped := fun output steering_vec =>
    CustomWrapper.WrappedModule CustomWrapper.Block output steering_vec in
  CustomWrapper.forward embed point finish toks1
      (wrapped saved (Some [[r]]))
    = (Ok (steered x1, finish x1 (steered x1)),
       wrapped (original x1) (Some [[r]])) /\
  CustomWrapper.forward embed point finish toks2
      (wrapped (original x1) (Some [[r]]))
    = (Ok (steered x2, finish x2 (steered x2)),
       wrapped (original x2) (Some [[r]])) /\
  CustomWrapper.read_activation (wrapped (original x2) (Some [[r]]))
    = Ok (PTensor (act x2)) /\
  CustomWrapper.forward embed point finish toks1 (wrapped saved None)
    = (Ok (original x1, finish x1 (original x1)),
       wrapped (original x1) None) /\
  CustomWrapper.forward embed point finish toks2
      (wrapped (original x1) None)
    = (Ok (original x2, finish x2 (original x2)),
       wrapped (original x2) None).
Proof.
  intros Hr Hpoint x1 x2 original steered wrapped.
  assert (Hset : forall toks o,
    CustomWrapper.forward embed point finish toks (wrapped o (Some [[r]]))
    = (Ok (steered (embed toks), finish (embed toks) (steered (embed toks))),
       wrapped (original (embed toks)) (Some [[r]]))).
  { intros toks o. unfold CustomWrapper.forward, wrapped.
    cbn [CustomWrapper.call_slot].
    rewrite (add_to_first_block Hd r _ _ _ (Hpoint (embed toks)) Hr).
    destruct (Hpoint (embed toks)) as [-> _]. reflexivity. }
  assert (Hunset : forall toks o,
    CustomWrapper.forward embed point finish toks (wrapped o None)
    = (Ok (original (embed toks),
           finish (embed toks) (original (embed toks))),
       wrapped (original (embed toks)) None)).
  { intros toks o. unfold CustomWrapper.forward, wrapped.
    cbn [CustomWrapper.call_slot].
    destruct (Hpoint (embed toks)) as [-> _]. reflexivity. }
  split; [apply Hset|]. split; [apply Hset|].
  split; [reflexivity|]. split; apply Hunset.
Qed.

End Wrapper.

Lemma WrappedModule_keeps_last_output_witness :
  let embed := fun toks : list nat => toks in
  let finish := fun (x : list nat) (out : pyval R) => length x in
  let act := fun x : list nat => [map (fun t => [INR t; 1%R]) x] in
  let rest := fun x : list nat => [PObj 0 : pyval R] in
  let block := fun x : list nat => PTuple (PTensor (act x) :: rest x) in
  let r : vector R := [5; 6]%R in
  let original := fun x => PTuple (PTensor (act x) :: rest x) in
  let steered := fun x =>
    PTuple (PTensor (on_rows sadd r (act x)) :: rest x) in
  let wrapped := fun output steering_vec =>
    CustomWrapper.WrappedModule CustomWrapper.Block output steering_vec in
  CustomWrapper.forward embed block finish [7] (wrapped PNone (Some [[r]]))
    = (Ok (steered [7], 1), wrapped (original [7]) (Some [[r]])) /\
  CustomWrapper.forward embed block finish [8; 9]
      (wrapped (original [7]) (Some [[r]]))
    = (Ok (steered [8; 9], 2), wrapped (original [8; 9]) (Some [[r]])) /\
  CustomWrapper.read_activation (wrapped (original [8; 9]) (Some [[r]]))
    = Ok (PTensor (act [8; 9])) /\
  CustomWrapper.forward embed block finish [7] (wrapped PNone None)
    = (Ok (original [7], 1), wrapped (original [7]) None) /\
  CustomWrapper.forward embed block finish [8; 9]
      (wrapped (original [7]) None)
    = (Ok (original [8; 9], 2), wrapped (original [8; 9]) None).
Proof.
  intros embed finish act rest block r.
  apply (WrappedModule_keeps_last_output nat (list nat) embed block finish
           PNone 2 r act rest [7] [8; 9]).
  - reflexivity.
  - intros x. split; [reflexivity|]. exists 1, (length x). split.
    + reflexivity.
    + constructor; [|constructor]. split.
      * unfold act. cbn [hd]. apply length_map.
      * apply Forall_map. apply Forall_forall. intros; reflexivity.
Defined.

(** ** Generation without interception *)

Section Baseline.
Context {T : Type} `{Scalar T}.
Variables Tok X : Type.
Variable embed : list Tok -> X.
Variable finish : X -> pyval T -> Tok.
Variable is_eos : Tok -> bool.

(** Generation on a model without any hook. *)
Lemma generate_no_hooks M (block : X -> pyval T) (w : registry T M) :
  forward_hooks w = [] ->
  forall n toks,
    generate (forward embed block finish) is_eos n toks w =
    (Ok (decode (step_with embed finish block) is_eos n toks), w).
Proof.
  intros Hhooks n toks. unfold generate, decode.
  destruct (generate_from_decode _ _ _ (forward embed block finish) is_eos
              (step_with embed finish block) (fun w' => w' = w))
    with (n := n) (toks := toks) (seen := @nil (pyval T)) (w := w)
    as (w' & -> & ->); [|reflexivity|reflexivity].
  intros toks' ? ->. exists w. split; [|reflexivity].
  unfold forward. rewrite (call_module_no_hooks _ w _ Hhooks). reflexivity.
Qed.

(** Generation on the bare block of custom_wrapper.ipynb. *)
Lemma generate_Block (block : X -> pyval T) n toks :
  generate (CustomWrapper.forward embed block finish) is_eos n toks
    CustomWrapper.Block =
  (Ok (decode (step_with embed finish block) is_eos n toks),
   CustomWrapper.Block).
Proof.
  unfold generate, decode.
  destruct (generate_from_decode _ _ _
              (CustomWrapper.forward embed block finish) is_eos
              (step_with embed finish block)
              (fun s => s = CustomWrapper.Block))
    with (n := n) (toks := toks) (seen := @nil (pyval T))
         (w := @CustomWrapper.Block T)
    as (w' & -> & ->); [|reflexivity|reflexivity].
  intros toks' ? ->. exists CustomWrapper.Block. split; reflexivity.
Qed.

End Baseline.

(** ** A steering vector that leaves the activations as they are *)

Section FixedRows.
Context {T : Type} `{Scalar T}.
Variables Tok X : Type.
Variable embed : list Tok -> X.
Variable finish : X -> pyval T -> Tok.
Variable is_eos : Tok -> bool.

(** When adding [coeff * r] to every position gives back each activation
    of the block, the steering cell of pytorch_hooks.ipynb and generation
    through a wrapper holding [coeff * steering_vec] return what
    generation returns with no hook and no wrapper. *)
Lemma fixed_rows_is_noop
    (Hd : nat) (coeff : T) (r : vector T) (block : X -> pyval T)
    (act : X -> tensor T) (rest : X -> list (pyval T))
    (cache : list (pyval T)) (n : nat) (toks : list Tok) :
  length r = Hd ->
  (forall x, block_output Hd (act x) (rest x) (block x)) ->
  (forall x, on_rows sadd (map (smul coeff) r) (act x) = act x) ->
  fst (PytorchHooks.steer embed block finish is_eos coeff [[r]] n toks
         (no_hooks cache))
    = fst (generate (forward embed block finish) is_eos n toks
             (no_hooks cache))
  /\
  fst (CustomWrapper.steer embed block finish is_eos coeff [[r]] n toks
         (CustomWrapper.wrap CustomWrapper.Block))
    = fst (generate (CustomWrapper.forward embed block finish) is_eos n toks
             CustomWrapper.Block).
Proof.
  intros Hr Hblock Hfixed.
  assert (Hsame : forall x, steered_tuple coeff r act rest x = block x).
  { intros x. unfold steered_tuple. rewrite Hfixed.
    destruct (Hblock x) as [-> _]. reflexivity. }
  split.
  - rewrite (generate_no_hooks _ _ embed finish is_eos _ block
               (no_hooks cache) eq_refl).
    unfold PytorchHooks.steer.
    cbn [register_forward_hook no_hooks next_id forward_hooks mem app].
    set (w1 := {| forward_hooks :=
                    [(0, PytorchHooks.act_add (tscale coeff [[r]]))];
                  next_id := 1; mem := cache |}).
    unfold generate, decode.
    destruct (generate_from_decode _ _ _ (forward embed block finish) is_eos
                (step_with embed finish block) (fun w' => w' = w1))
      with (n := n) (toks := toks) (seen := @nil (pyval T)) (w := w1)
      as (w' & -> & ->); [|reflexivity|reflexivity].
    intros toks' ? ->. exists w1. split; [|reflexivity].
    rewrite (forward_act_add_tuple _ _ embed finish Hd coeff r block act rest
               w1 0 Hr Hblock eq_refl).
    unfold step_with. rewrite Hsame. reflexivity.
  - rewrite (generate_Block _ _ embed finish is_eos).
    unfold CustomWrapper.steer, CustomWrapper.wrap.
    cbn [CustomWrapper.set_steering_vec].
    unfold generate, decode.
    destruct (generate_from_decode _ _ _
                (CustomWrapper.forward embed block finish) is_eos
                (step_with embed finish block)
                (fun s => exists o, s = CustomWrapper.WrappedModule
                            CustomWrapper.Block o (Some (tscale coeff [[r]]))))
      with (n := n) (toks := toks) (seen := @nil (pyval T))
           (w := CustomWrapper.WrappedModule CustomWrapper.Block PNone
                   (Some (tscale coeff [[r]])))
      as (w' & -> & _); [|eexists; reflexivity|reflexivity].
    intros toks' s [o ->].
    unfold CustomWrapper.forward. cbn [CustomWrapper.call_slot].
    rewrite tscale_row.
    rewrite (add_to_first_block Hd _ _ _ _ (Hblock (embed toks')))
      by (rewrite length_map; exact Hr).
    eexists. split; [|eexists; reflexivity].
    unfold step_with. rewrite <- (Hsame (embed toks')). reflexivity.
Qed.

End FixedRows.

(** ** Exact arithmetic: a zero coefficient *)

Lemma zip_with_add_zero : forall (row r : vector R),
  length row = length r ->
  zip_with sadd row (map (smul 0%R) r) = row.
Proof.
  induction row as [|x row IH]; intros [|y r] Hlen; simpl in *;
    try discriminate; [reflexivity|].
  rewrite IH by lia. f_equal. lra.
Qed.

Lemma on_rows_zero B S Hd (act : tensor R) (r : vector R) :
  has_shape B S Hd act -> length r = Hd ->
  on_rows sadd (map (smul 0%R) r) act = act.
Proof.
  intros [_ Hact] Hr. unfold on_rows.
  rewrite <- (map_id act) at 2. apply map_ext_in. intros m Hm.
  rewrite <- (map_id m) at 2. apply map_ext_in. intros row Hrow.
  rewrite Forall_forall in Hact. destruct (Hact m Hm) as [_ Hrows].
  rewrite Forall_forall in Hrows.
  apply zip_with_add_zero. rewrite (Hrows row Hrow). symmetry; exact Hr.
Qed.

(** Over the real numbers a zero coefficient is a no-op for every
    steering vector of the block's hidden size: [x + 0 * y = x] holds for
    all reals.  IEEE floats need more, see the section on them below. *)
Lemma zero_coefficient_is_noop_exact
    (Tok X : Type) (embed : list Tok -> X) (finish : X -> pyval R -> Tok)
    (is_eos : Tok -> bool)
    (Hd : nat) (r : vector R) (block : X -> pyval R)
    (act : X -> tensor R) (rest : X -> list (pyval R))
    (cache : list (pyval R)) (n : nat) (toks : list Tok) :
  length r = Hd ->
  (forall x, block_output Hd (act x) (rest x) (block x)) ->
  fst (PytorchHooks.steer embed block finish is_eos 0%R [[r]] n toks
         (no_hooks cache))
    = fst (generate (forward embed block finish) is_eos n toks
             (no_hooks cache))
  /\
  fst (CustomWrapper.steer embed block finish is_eos 0%R [[r]] n toks
         (CustomWrapper.wrap CustomWrapper.Block))
    = fst (generate (CustomWrapper.forward embed block finish) is_eos n toks
             CustomWrapper.Block).
Proof.
  intros Hr Hblock.
  apply (fixed_rows_is_noop Tok X embed finish is_eos Hd 0%R r block act rest
           cache n toks Hr Hblock).
  intros x. destruct (Hblock x) as [_ (B & S & Hact)].
  exact (on_rows_zero B S Hd _ _ Hact Hr).
Qed.

(** ** Exact arithmetic: the steering vector *)

Lemma last_slice_last {A} (d : A) : forall m : list A,
  m <> [] -> last_slice m = [last m d].
Proof.
  unfold last_slice.
  induction m as [|x [|y m] IH]; intros Hne.
  - contradiction.
  - reflexivity.
  - specialize (IH ltac:(discriminate)).
    cbn [length Nat.sub] in IH. rewrite Nat.sub_0_r in IH.
    cbn [length Nat.sub skipn]. exact IH.
Qed.

Section SteeringVector.
Context {T : Type} `{Scalar T}.

Lemma tsub_last_slices B S1 S2 Hd : forall a b : tensor T,
  has_shape B S1 Hd a -> has_shape B S2 Hd b ->
  1 <= S1 -> 1 <= S2 ->
  tsub (slice_last a) (slice_last b) = Ok (last_position_difference a b).
Proof.
  intros a b [HBa Ha] [HBb Hb] HS1 HS2.
  unfold tsub, pointwise, slice_last, last_position_difference.
  assert (Hlen : length a = length b)
    by (transitivity B; [exact HBa | symmetry; exact HBb]).
  rewrite broadcast_same by (rewrite !length_map; exact Hlen).
  clear HBa HBb. revert b Hb Hlen.
  induction Ha as [|ma a [HSa Hra] _ IH]; intros [|mb b] Hb Hlen;
    simpl in Hlen; try discriminate; [reflexivity|].
  inversion Hb as [|? ? [HSb Hrb] Hb']; subst.
  cbn [map zipM zip_with].
  rewrite (last_slice_last (A := vector T) [] ma) by (destruct ma; simpl in *; [lia|discriminate]).
  rewrite (last_slice_last (A := vector T) [] mb) by (destruct mb; simpl in *; [lia|discriminate]).
  rewrite broadcast_same by reflexivity. cbn [zipM].
  assert (Hla : length (last ma []) = Hd).
  { rewrite Forall_forall in Hra. apply Hra.
    destruct ma as [|x ma]; [simpl in *; lia|].
    rewrite (app_removelast_last [] (l := x :: ma)) at 2 by discriminate.
    apply in_or_app; right; left; reflexivity. }
  assert (Hlb : length (last mb []) = Hd).
  { rewrite Forall_forall in Hrb. apply Hrb.
    destruct mb as [|x mb]; [simpl in *; lia|].
    rewrite (app_removelast_last [] (l := x :: mb)) at 2 by discriminate.
    apply in_or_app; right; left; reflexivity. }
  assert (Hlab : length (last ma []) = length (last mb []))
    by (transitivity Hd; [exact Hla | symmetry; exact Hlb]).
  rewrite broadcast_same by exact Hlab.
  rewrite (zipM_pure _ _ _ _ ssub) by (exact Hlab || reflexivity).
  cbn [bind].
  rewrite (IH b Hb') by lia.
  reflexivity.
Qed.

Lemma last_position_difference_shape B S1 S2 Hd : forall a b : tensor T,
  has_shape B S1 Hd a -> has_shape B S2 Hd b ->
  1 <= S1 -> 1 <= S2 ->
  has_shape B 1 Hd (last_position_difference a b).
Proof.
  intros a b [HBa Ha] [HBb Hb] HS1 HS2.
  unfold last_position_difference. split.
  - rewrite zip_with_length;
      [exact HBa | transitivity B; [exact HBa | symmetry; exact HBb]].
  - assert (Hlen : length a = length b)
      by (transitivity B; [exact HBa | symmetry; exact HBb]).
    clear HBa HBb. revert b Hb Hlen.
    induction Ha as [|ma a [HSa Hra] _ IH]; intros [|mb b] Hb Hlen;
      simpl in Hlen; try discriminate; [constructor|].
    inversion Hb as [|? ? [HSb Hrb] Hb']; subst.
    cbn [zip_with]. constructor; [|apply IH; [exact Hb' | lia]].
    split; [reflexivity|]. constructor; [|constructor].
    assert (Hla : length (last ma []) = length (last mb [])).
    { rewrite Forall_forall in Hra, Hrb.
      transitivity Hd; [apply Hra | symmetry; apply Hrb].
      - destruct ma as [|x ma]; [simpl in *; lia|].
        rewrite (app_removelast_last [] (l := x :: ma)) at 2 by discriminate.
        apply in_or_app; right; left; reflexivity.
      - destruct mb as [|x mb]; [simpl in *; lia|].
        rewrite (app_removelast_last [] (l := x :: mb)) at 2 by discriminate.
        apply in_or_app; right; left; reflexivity. }
    rewrite zip_with_length by exact Hla.
    rewrite Forall_forall in Hra. apply Hra.
    destruct ma as [|x ma]; [simpl in *; lia|].
    rewrite (app_removelast_last [] (l := x :: ma)) at 2 by discriminate.
    apply in_or_app; right; left; reflexivity.
Qed.

Lemma tmap_shape (f : T -> T) B S Hd (t : tensor T) :
  has_shape B S Hd t -> has_shape B S Hd (tmap f t).
Proof.
  intros [HB Ht]. unfold tmap. split.
  - rewrite length_map; exact HB.
  - rewrite Forall_map. eapply Forall_impl; [|exact Ht].
    intros m [HS Hrows]. split.
    + rewrite length_map; exact HS.
    + rewrite Forall_map. eapply Forall_impl; [|exact Hrows].
      intros r Hr. simpl. rewrite length_map; exact Hr.
Qed.

Lemma flatten_tmap (f : T -> T) (t : tensor T) :
  flatten (tmap f t) = map f (flatten t).
Proof.
  unfold flatten, tmap.
  rewrite <- !concat_map. reflexivity.
Qed.

End SteeringVector.

(** Exposes the operations of the reals behind the scalar interface. *)
Ltac real_ops :=
  unfold sum_squares, ssum in *;
  cbn [map fold_right sadd ssub smul sdiv ssqrt szero R_scalar] in *.

Lemma sum_squares_nonneg (l : list R) : (0 <= sum_squares l)%R.
Proof.
  induction l as [|x l IH]; real_ops.
  - lra.
  - pose proof (Rle_0_sqr x) as Hx. unfold Rsqr in Hx. lra.
Qed.

Lemma sum_squares_pos (l : list R) :
  Exists (fun x => x <> 0%R) l -> (0 < sum_squares l)%R.
Proof.
  induction 1 as [x l Hx | x l _ IH].
  - pose proof (sum_squares_nonneg l) as Hl.
    assert (0 < x * x)%R by (apply Rsqr_pos_lt in Hx; exact Hx).
    real_ops. lra.
  - pose proof (Rle_0_sqr x) as Hx. unfold Rsqr in Hx. real_ops. lra.
Qed.

Lemma sum_squares_div (l : list R) (n : R) :
  n <> 0%R ->
  sum_squares (map (fun x => sdiv x n) l) = (sum_squares l / (n * n))%R.
Proof.
  intros Hn. induction l as [|x l IH]; real_ops.
  - field. exact Hn.
  - rewrite IH. field. exact Hn.
Qed.

Lemma norm_sum_squares (t : tensor R) :
  norm t = sqrt (sum_squares (flatten t)).
Proof. reflexivity. Qed.

(** C2.  For two activations of the same batch size and hidden size, of
    sequence lengths at least one, whose last positions differ somewhere,
    the steering vector is the difference of the last positions divided by
    its Euclidean norm: the derivation succeeds with that value (it is a
    function of the two activations), which has shape (batch, 1, hidden)
    and Euclidean norm 1.  Tensors are over the real numbers here. *)
Theorem steering_vec_is_unit_difference
    (B S1 S2 Hd : nat) (act_love act_hate : tensor R) :
  has_shape B S1 Hd act_love ->
  has_shape B S2 Hd act_hate ->
  1 <= S1 -> 1 <= S2 ->
  let d := last_position_difference act_love act_hate in
  Exists (fun x => x <> 0%R) (flatten d) ->
  steering_vec act_love act_hate = Ok (tdivs d (norm d)) /\
  has_shape B 1 Hd (tdivs d (norm d)) /\
  norm (tdivs d (norm d)) = 1%R.
Proof.
  intros Hlove Hhate HS1 HS2 d Hd0.
  assert (Hpos : (0 < sum_squares (flatten d))%R)
    by (apply sum_squares_pos; exact Hd0).
  assert (Hnorm : (0 < norm d)%R)
    by (rewrite norm_sum_squares; apply sqrt_lt_R0; exact Hpos).
  repeat split.
  - unfold steering_vec.
    rewrite (tsub_last_slices B S1 S2 Hd _ _ Hlove Hhate HS1 HS2).
    reflexivity.
  - destruct (tmap_shape (fun x => sdiv x (norm d)) B 1 Hd d
                (last_position_difference_shape B S1 S2 Hd _ _
                   Hlove Hhate HS1 HS2)) as [HB _].
    exact HB.
  - destruct (tmap_shape (fun x => sdiv x (norm d)) B 1 Hd d
                (last_position_difference_shape B S1 S2 Hd _ _
                   Hlove Hhate HS1 HS2)) as [_ Hrows].
    exact Hrows.
  - rewrite (norm_sum_squares (tdivs d (norm d))).
    unfold tdivs. rewrite flatten_tmap.
    rewrite sum_squares_div by lra.
    rewrite norm_sum_squares.
    rewrite sqrt_sqrt by lra.
    replace (sum_squares (flatten d) / sum_squares (flatten d))%R with 1%R
      by (field; lra).
    apply sqrt_1.
Qed.

Lemma steering_vec_is_unit_difference_witness :
  let act_love : tensor R := [[[3; 4]]]%R in
  let act_hate : tensor R := [[[1; 1]; [0; 0]]]%R in
  let d := last_position_difference act_love act_hate in
  steering_vec act_love act_hate = Ok (tdivs d (norm d)) /\
  has_shape 1 1 2 (tdivs d (norm d)) /\
  norm (tdivs d (norm d)) = 1%R.
Proof.
  apply (steering_vec_is_unit_difference 1 1 2 2
           [[[3; 4]]]%R [[[1; 1]; [0; 0]]]%R).
  - split; [reflexivity | repeat constructor].
  - split; [reflexivity | repeat constructor].
  - lia.
  - lia.
  - left. real_ops. lra.
Defined.

(** ** Deactivation *)

Section Invariants.
Variables Tok Obs W : Type.
Variable fwd : list Tok -> W -> result (Obs * Tok) * W.
Variable is_eos : Tok -> bool.
Variable inv : W -> Prop.

Hypothesis fwd_keeps : forall toks w, inv w -> inv (snd (fwd toks w)).

Lemma generate_from_keeps : forall n toks seen w,
  inv w -> inv (snd (generate_from fwd is_eos n toks seen w)).
Proof.
  induction n as [|n IH]; intros toks seen w Hw; simpl; [exact Hw|].
  pose proof (fwd_keeps toks w Hw) as Hw'.
  destruct (fwd toks w) as [[[o t]|e] w']; simpl in Hw'.
  - destruct (is_eos t); [exact Hw' | apply IH; exact Hw'].
  - exact Hw'.
Qed.

End Invariants.

Section Deactivation.
Context {T : Type} `{Scalar T}.
Variables Tok X : Type.
Variable embed : list Tok -> X.
Variable is_eos : Tok -> bool.

Lemma forward_keeps_hooks M (point : X -> pyval T) finish
    (hs : list (nat * hook T M)) toks (w : registry T M) :
  forward_hooks w = hs ->
  forward_hooks (snd (forward embed point finish toks w)) = hs.
Proof.
  intros Hw. unfold forward, call_module.
  destruct (run_hooks (forward_hooks w) (point (embed toks)) (mem w))
    as [[o|e] m']; exact Hw.
Qed.

Lemma generate_keeps_hooks M (point : X -> pyval T) finish
    (hs : list (nat * hook T M)) n toks (w : registry T M) :
  forward_hooks w = hs ->
  forward_hooks
    (snd (generate (forward embed point finish) is_eos n toks w)) = hs.
Proof.
  intros Hw. unfold generate.
  apply (generate_from_keeps _ _ _ (forward embed point finish) is_eos
           (fun w' => forward_hooks w' = hs)); [|exact Hw].
  intros toks' w' Hw'. apply forward_keeps_hooks; exact Hw'.
Qed.

Lemma wrapped_block_kept (point : X -> pyval T) finish n toks o v :
  exists o',
    snd (generate (CustomWrapper.forward embed point finish) is_eos n toks
           (CustomWrapper.WrappedModule CustomWrapper.Block o v))
    = CustomWrapper.WrappedModule CustomWrapper.Block o' v.
Proof.
  unfold generate.
  apply (generate_from_keeps _ _ _
           (CustomWrapper.forward embed point finish) is_eos
           (fun s => exists o',
              s = CustomWrapper.WrappedModule CustomWrapper.Block o' v));
    [|exists o; reflexivity].
  intros toks' s [o' ->]. unfold CustomWrapper.forward.
  cbn [CustomWrapper.call_slot].
  destruct v as [sv|].
  - destruct (add_to_first sv (point (embed toks'))); eexists; reflexivity.
  - eexists; reflexivity.
Qed.

Lemma bias_forward_no_hooks (ln : X -> pyval T) finish_attn weight nf toks
    (w : BiasEditing.world) :
  forward_hooks (BiasEditing.ln_1 w) = [] ->
  snd (BiasEditing.forward embed ln finish_attn weight nf toks w) = w.
Proof.
  intros Hhooks. unfold BiasEditing.forward.
  rewrite (call_module_no_hooks _ _ _ Hhooks).
  destruct w as [reg b]. cbn [BiasEditing.ln_1 BiasEditing.bias].
  destruct (ln (embed toks)) as [t| | |]; try reflexivity.
  destruct (BiasEditing.c_attn weight nf b t); reflexivity.
Qed.

Lemma bias_generate_no_hooks (ln : X -> pyval T) finish_attn weight nf n toks
    (w : BiasEditing.world) :
  forward_hooks (BiasEditing.ln_1 w) = [] ->
  snd (generate (BiasEditing.forward embed ln finish_attn weight nf)
         is_eos n toks w) = w.
Proof.
  intros Hhooks. unfold generate.
  apply (generate_from_keeps _ _ _
           (BiasEditing.forward embed ln finish_attn weight nf) is_eos
           (fun w' => w' = w)); [|reflexivity].
  intros toks' w' ->. apply bias_forward_no_hooks; exact Hhooks.
Qed.

(** C4.  Once a steering cell has run to its end, later generation is the
    baseline again.  After [handle.remove()] (pytorch_hooks.ipynb) and
    after [model.reset_hooks()] (transformer_lens.ipynb), every generation
    call returns what it returns on the model without hooks and leaves the
    state as it is; after the steering of custom_wrapper.ipynb, taking
    [.module] yields the bare block again; [reset_bias_attn] with the
    saved bias (bias_editing.ipynb) puts the state back exactly. *)
Theorem deactivation_restores_baseline
    (point : X -> pyval T) (finish : X -> pyval T -> Tok)
    (finish_attn : X -> tensor T -> Tok) (weight : matrix T) (nf : nat)
    (coeff : T) (steering_vec : tensor T) (n : nat) (toks : list Tok) :
  (forall cache r w',
      PytorchHooks.steer embed point finish is_eos coeff steering_vec n toks
        (no_hooks cache) = (Ok r, w') ->
      forall n' toks',
        fst (generate (forward embed point finish) is_eos n' toks' w')
          = fst (generate (forward embed point finish) is_eos n' toks'
                   (no_hooks cache)) /\
        snd (generate (forward embed point finish) is_eos n' toks' w') = w')
  /\
  (forall r w',
      TransformerLens.steer embed point finish is_eos coeff steering_vec
        n toks (no_hooks tt) = (Ok r, w') ->
      forall n' toks',
        fst (generate (forward embed point finish) is_eos n' toks' w')
          = fst (generate (forward embed point finish) is_eos n' toks'
                   (no_hooks tt)) /\
        snd (generate (forward embed point finish) is_eos n' toks' w') = w')
  /\
  CustomWrapper.unwrap
    (snd (CustomWrapper.steer embed point finish is_eos coeff steering_vec
            n toks (CustomWrapper.wrap CustomWrapper.Block)))
    = Ok CustomWrapper.Block
  /\
  (forall (w : BiasEditing.world) r w',
      forward_hooks (BiasEditing.ln_1 w) = [] ->
      BiasEditing.steer_by_bias embed point finish_attn is_eos weight nf
        (BiasEditing.bias w) coeff steering_vec n toks w = (Ok r, w') ->
      w' = w).
Proof.
  split; [|split; [|split]].
  - intros cache r w' Hsteer n' toks'.
    unfold PytorchHooks.steer in Hsteer.
    cbn [register_forward_hook no_hooks next_id forward_hooks mem app]
      in Hsteer.
    match type of Hsteer with
    | context [generate ?f ?e ?k ?t ?w1] =>
        pose proof (generate_keeps_hooks _ point finish _ k t w1 eq_refl)
          as Hkeep;
        destruct (generate f e k t w1) as [[r0|e0] w2]
    end; inversion Hsteer; subst; clear Hsteer.
    cbn [snd] in Hkeep.
    assert (Hnone : forward_hooks (remove 0 w2) = [])
      by (unfold remove; cbn [forward_hooks]; rewrite Hkeep; reflexivity).
    rewrite (generate_no_hooks _ _ embed finish is_eos _ point _ Hnone).
    rewrite (generate_no_hooks _ _ embed finish is_eos _ point
               (no_hooks cache) eq_refl).
    split; reflexivity.
  - intros r w' Hsteer n' toks'.
    unfold TransformerLens.steer in Hsteer.
    destruct (generate _ _ _ _ _) as [[r0|e0] w2] in Hsteer;
      inversion Hsteer; subst; clear Hsteer.
    rewrite (generate_no_hooks _ _ embed finish is_eos _ point
               (reset_hooks w2) eq_refl).
    rewrite (generate_no_hooks _ _ embed finish is_eos _ point
               (no_hooks tt) eq_refl).
    split; reflexivity.
  - unfold CustomWrapper.steer, CustomWrapper.wrap.
    cbn [CustomWrapper.set_steering_vec].
    destruct (wrapped_block_kept point finish n toks PNone
                (Some (tscale coeff steering_vec))) as [o' ->].
    reflexivity.
  - intros w r w' Hhooks Hsteer.
    unfold BiasEditing.steer_by_bias, BiasEditing.change_bias_attn in Hsteer.
    destruct (BiasEditing.c_attn_squeezed weight nf (BiasEditing.bias w)
                (BiasEditing.squeeze (tscale coeff steering_vec)))
      as [tilde_b|e]; [|inversion Hsteer].
    match type of Hsteer with
    | context [generate ?f ?e ?k ?t ?w1] =>
        pose proof (bias_generate_no_hooks point finish_attn weight nf
                      k t w1 Hhooks) as Hkeep;
        destruct (generate f e k t w1) as [[r0|e0] w2]
    end; inversion Hsteer; subst; clear Hsteer.
    cbn [snd] in Hkeep. subst w2.
    destruct w; reflexivity.
Qed.

End Deactivation.

Lemma deactivation_restores_baseline_witness :
  let embed := fun toks : list nat => toks in
  let finish := fun (x : list nat) (out : pyval R) => length x in
  let finish_attn := fun (x : list nat) (out : tensor R) => length x in
  let is_eos := fun t : nat => t =? 3 in
  let block := fun x : list nat =>
    PTuple [PTensor [[[1; 2]; [3; 4]]]%R; PObj 0] : pyval R in
  let ln := fun x : list nat => PTensor [[[1; 2]; [3; 4]]]%R : pyval R in
  let weight := [[1; 0; 1]; [0; 1; 1]]%R in
  let sv : tensor R := [[[5; 6]]]%R in
  let w_hook :=
    snd (PytorchHooks.steer embed block finish is_eos 10%R sv 10 [7]
           (no_hooks [])) in
  let w_lens :=
    snd (TransformerLens.steer embed ln finish is_eos 10%R sv 10 [7]
           (no_hooks tt)) in
  let w_bias :=
    {| BiasEditing.ln_1 := no_hooks None;
       BiasEditing.bias := [0; 0; 0]%R |} in
  (fst (generate (forward embed block finish) is_eos 5 [8; 9] w_hook)
     = fst (generate (forward embed block finish) is_eos 5 [8; 9]
              (no_hooks (@nil (pyval R))))) /\
  (fst (generate (forward embed ln finish) is_eos 5 [8; 9] w_lens)
     = fst (generate (forward embed ln finish) is_eos 5 [8; 9]
              (no_hooks tt))) /\
  snd (BiasEditing.steer_by_bias embed ln finish_attn is_eos weight 3
         [0; 0; 0]%R 10%R sv 10 [7] w_bias) = w_bias.
Proof.
  intros embed finish finish_attn is_eos block ln weight sv
    w_hook w_lens w_bias.
  split; [|split].
  - destruct (deactivation_restores_baseline nat (list nat) embed is_eos
                block finish finish_attn weight 3 10%R sv 10 [7])
      as (Hhook & _ & _ & _).
    eapply Hhook. reflexivity.
  - destruct (deactivation_restores_baseline nat (list nat) embed is_eos
                ln finish finish_attn weight 3 10%R sv 10 [7])
      as (_ & Hlens & _ & _).
    eapply Hlens. reflexivity.
  - destruct (deactivation_restores_baseline nat (list nat) embed is_eos
                ln finish finish_attn weight 3 10%R sv 10 [7])
      as (_ & _ & _ & Hbias).
    eapply (Hbias w_bias); reflexivity.
Defined.

(** ** IEEE arithmetic: a zero norm *)

Lemma float_sum_squares_zero (l : list PrimFloat.float) :
  Forall float_zero l ->
  ssum (map (fun x => smul x x) l) = PrimFloat.zero.
Proof.
  induction 1 as [|x l [-> | ->] _ IH]; cbn [map ssum fold_right] in *.
  - reflexivity.
  - unfold ssum in IH. rewrite IH. reflexivity.
  - unfold ssum in IH. rewrite IH. reflexivity.
Qed.

Lemma float_zero_div_zero (x : PrimFloat.float) :
  float_zero x -> PrimFloat.is_nan (sdiv x PrimFloat.zero) = true.
Proof. intros [-> | ->]; reflexivity. Qed.

(** C6, as the notebooks behave.  Dividing by a zero norm raises nothing:
    the derivation returns the difference of the last positions divided
    entry by entry by zero.  When that difference is zero throughout (the
    two activations agree at their last positions) its norm is zero and
    every entry of the steering vector returned is NaN.  Tensors are over
    IEEE floats here. *)
Theorem steering_vec_zero_norm_is_nan
    (B S1 S2 Hd : nat) (act_love act_hate : tensor PrimFloat.float) :
  has_shape B S1 Hd act_love ->
  has_shape B S2 Hd act_hate ->
  1 <= S1 -> 1 <= S2 ->
  let d := last_position_difference act_love act_hate in
  (norm d = PrimFloat.zero ->
   steering_vec act_love act_hate = Ok (tdivs d PrimFloat.zero)) /\
  (Forall float_zero (flatten d) ->
   norm d = PrimFloat.zero /\
   Forall (fun y => PrimFloat.is_nan y = true)
          (flatten (tdivs d PrimFloat.zero))).
Proof.
  intros Hlove Hhate HS1 HS2 d. split.
  - intros Hnorm. unfold steering_vec.
    rewrite (tsub_last_slices B S1 S2 Hd _ _ Hlove Hhate HS1 HS2).
    cbn [bind]. fold d. rewrite Hnorm. reflexivity.
  - intros Hzero. split.
    + unfold norm. rewrite (float_sum_squares_zero _ Hzero). reflexivity.
    + unfold tdivs. rewrite flatten_tmap. rewrite Forall_map.
      eapply Forall_impl; [|exact Hzero].
      intros x Hx. apply float_zero_div_zero; exact Hx.
Qed.

Lemma steering_vec_zero_norm_is_nan_witness :
  let act : tensor PrimFloat.float := [[[PrimFloat.one; PrimFloat.two]]] in
  let d := last_position_difference act act in
  steering_vec act act = Ok (tdivs d PrimFloat.zero) /\
  norm d = PrimFloat.zero /\
  Forall (fun y => PrimFloat.is_nan y = true)
         (flatten (tdivs d PrimFloat.zero)).
Proof.
  destruct (steering_vec_zero_norm_is_nan 1 1 1 2
              [[[PrimFloat.one; PrimFloat.two]]]
              [[[PrimFloat.one; PrimFloat.two]]])
    as [Hreturns Hnan].
  - split; [reflexivity | repeat constructor].
  - split; [reflexivity | repeat constructor].
  - lia.
  - lia.
  - split.
    + apply Hreturns. reflexivity.
    + apply Hnan. repeat constructor; left; reflexivity.
Defined.

(** C6, as the claim states it, fails: the activation [[[1.0, 2.0]]]
    taken twice has a difference of norm exactly zero, and the derivation
    returns a steering vector (of NaNs) instead of raising. *)
Lemma steering_vec_zero_norm_does_not_raise :
  let act : tensor PrimFloat.float := [[[PrimFloat.one; PrimFloat.two]]] in
  (exists d,
      tsub (slice_last act) (slice_last act) = Ok d /\
      norm d = PrimFloat.zero) /\
  (exists v,
      steering_vec act act = Ok v /\
      Forall (fun y => PrimFloat.is_nan y = true) (flatten v)) /\
  ~ (exists e, steering_vec act act = Raise e).
Proof.
  cbv zeta. split; [|split].
  - eexists. split; reflexivity.
  - eexists. split; [reflexivity|]. repeat constructor.
  - intros [e He]. vm_compute in He. discriminate He.
Qed.

(** ** Exact arithmetic: editing the bias *)

Lemma zip_with_add_repeat_zero (n : nat) :
  zip_with Rplus (repeat 0%R n) (repeat 0%R n) = repeat 0%R n.
Proof.
  induction n as [|n IH]; simpl; [reflexivity|].
  rewrite IH. f_equal. lra.
Qed.

Lemma zip_with_axpy_add (x y : R) : forall a p q : list R,
  length a = length p -> length a = length q ->
  zip_with Rplus (map (Rmult (x + y)) a) (zip_with Rplus p q) =
  zip_with Rplus (zip_with Rplus (map (Rmult x) a) p)
                 (zip_with Rplus (map (Rmult y) a) q).
Proof.
  induction a as [|u a IH]; intros [|v p] [|w q] Hp Hq; simpl in *;
    try discriminate; [reflexivity|].
  rewrite IH by lia. f_equal. lra.
Qed.

Lemma zip_with_add_shuffle : forall b p q : list R,
  length b = length p -> length b = length q ->
  zip_with Rplus b (zip_with Rplus p q) =
  zip_with Rplus (zip_with Rplus b q) p.
Proof.
  induction b as [|u b IH]; intros [|v p] [|w q] Hp Hq; simpl in *;
    try discriminate; [reflexivity|].
  rewrite IH by lia. f_equal. lra.
Qed.

Lemma zip_with_add_fixed : forall c v : list R,
  length c = length v ->
  zip_with Rplus c v = c -> Forall (fun x => x = 0%R) v.
Proof.
  induction c as [|u c IH]; intros [|x v] Hlen Heq; simpl in *;
    try discriminate; [constructor|].
  injection Heq as Hx Hrest.
  constructor; [lra | apply IH; [lia | exact Hrest]].
Qed.

Lemma vecmat_length (nf : nat) : forall (x : vector R) (w : matrix R),
  Forall (fun row => length row = nf) w ->
  length (BiasEditing.vecmat nf x w) = nf.
Proof.
  induction x as [|xi x IH]; intros [|wi w] Hw; simpl;
    try apply repeat_length.
  pose proof (Forall_inv Hw) as Hwi. pose proof (Forall_inv_tail Hw) as Hw'.
  cbn beta in Hwi.
  rewrite zip_with_length; rewrite length_map; [exact Hwi|].
  rewrite Hwi. symmetry. apply IH. exact Hw'.
Qed.

Lemma vecmat_add (nf : nat) : forall (x y : vector R) (w : matrix R),
  length x = length y ->
  Forall (fun row => length row = nf) w ->
  BiasEditing.vecmat nf (zip_with Rplus x y) w =
  zip_with Rplus (BiasEditing.vecmat nf x w) (BiasEditing.vecmat nf y w).
Proof.
  induction x as [|xi x IH]; intros [|yi y] [|wi w] Hlen Hw; simpl in *;
    try discriminate;
    try (symmetry; apply zip_with_add_repeat_zero).
  pose proof (Forall_inv Hw) as Hwi. pose proof (Forall_inv_tail Hw) as Hw'.
  cbn beta in Hwi.
  rewrite IH by (lia || exact Hw').
  apply zip_with_axpy_add;
    rewrite vecmat_length by exact Hw'; exact Hwi.
Qed.

Section BiasEdit.
Variable weight : matrix R.
Variables nf Hd : nat.
Hypothesis weight_rows : length weight = Hd.
Hypothesis weight_cols : Forall (fun row => length row = nf) weight.
Hypothesis hidden : 2 <= Hd.

Lemma addmm_row (b x : vector R) :
  length b = nf -> length x = Hd ->
  BiasEditing.addmm weight nf b x =
  Ok (zip_with Rplus b (BiasEditing.vecmat nf x weight)).
Proof.
  intros Hb Hx. unfold BiasEditing.addmm.
  rewrite Hx, weight_rows, Nat.eqb_refl.
  replace (Hd =? 0) with false by (symmetry; apply Nat.eqb_neq; lia).
  cbn [negb].
  rewrite (vecmat_length nf x weight weight_cols), Hb, Nat.eqb_refl.
  reflexivity.
Qed.

Lemma c_attn_rows (b : vector R) B S (t : tensor R) :
  length b = nf -> has_shape B S Hd t ->
  BiasEditing.c_attn weight nf b t =
  Ok (map (map (fun row =>
        zip_with Rplus b (BiasEditing.vecmat nf row weight))) t).
Proof.
  intros Hb [_ Ht]. unfold BiasEditing.c_attn.
  apply mapM_pure. intros m Hm.
  apply mapM_pure. intros row Hrow.
  rewrite Forall_forall in Ht. destruct (Ht m Hm) as [_ Hrows].
  rewrite Forall_forall in Hrows.
  apply addmm_row; [exact Hb | apply Hrows; exact Hrow].
Qed.

Lemma squeeze_row (r : vector R) :
  length r = Hd -> BiasEditing.squeeze [[r]] = BiasEditing.Rank1 r.
Proof.
  intros Hr. destruct r as [|x [|y r]]; simpl in Hr; try lia; reflexivity.
Qed.

Lemma change_bias_attn_row (r : vector R) (w : BiasEditing.world) :
  length r = Hd -> length (BiasEditing.bias w) = nf ->
  BiasEditing.change_bias_attn weight nf [[r]] w =
  (Ok tt,
   {| BiasEditing.ln_1 := BiasEditing.ln_1 w;
      BiasEditing.bias :=
        zip_with Rplus (BiasEditing.bias w)
                 (BiasEditing.vecmat nf r weight) |}).
Proof.
  intros Hr Hb. unfold BiasEditing.change_bias_attn.
  rewrite (squeeze_row r Hr). cbn [BiasEditing.c_attn_squeezed].
  rewrite (addmm_row _ _ Hb Hr). reflexivity.
Qed.

End BiasEdit.

(** C9.  [change_bias_attn] applies the affine map of the moment to the
    steering vector: the new bias is the bias found at the call plus
    [steering_vec @ weight].  Called on the original bias it yields the
    original plus that product; called again without [reset_bias_attn] it
    adds the product a second time, which differs from the intended bias
    as soon as the product is not zero; called after [reset_bias_attn]
    with the original bias it yields the intended bias again. *)
Theorem change_bias_attn_compounds
    (weight : matrix R) (nf Hd : nat) (r : vector R)
    (w : BiasEditing.world (T:=R)) :
  length weight = Hd ->
  Forall (fun row => length row = nf) weight ->
  2 <= Hd ->
  length r = Hd ->
  length (BiasEditing.bias w) = nf ->
  let org_bias := BiasEditing.bias w in
  let product := BiasEditing.vecmat nf r weight in
  let once :=
    {| BiasEditing.ln_1 := BiasEditing.ln_1 w;
       BiasEditing.bias := zip_with Rplus org_bias product |} in
  let twice :=
    {| BiasEditing.ln_1 := BiasEditing.ln_1 w;
       BiasEditing.bias :=
         zip_with Rplus (zip_with Rplus org_bias product) product |} in
  BiasEditing.change_bias_attn weight nf [[r]] w = (Ok tt, once) /\
  BiasEditing.change_bias_attn weight nf [[r]] once = (Ok tt, twice) /\
  (Exists (fun x => x <> 0%R) product ->
   BiasEditing.bias twice <> BiasEditing.bias once) /\
  BiasEditing.change_bias_attn weight nf [[r]]
    (BiasEditing.reset_bias_attn org_bias once) = (Ok tt, once).
Proof.
  intros Hrows Hcols Hhid Hr Hb org_bias product once twice.
  assert (Hprod : length product = nf)
    by (apply vecmat_length; exact Hcols).
  assert (Honce : length (BiasEditing.bias once) = nf).
  { cbn [once BiasEditing.bias]. rewrite zip_with_length; [exact Hb|].
    transitivity nf; [exact Hb | symmetry; exact Hprod]. }
  repeat split.
  - apply (change_bias_attn_row weight nf Hd Hrows Hcols Hhid r w Hr Hb).
  - apply (change_bias_attn_row weight nf Hd Hrows Hcols Hhid r once Hr Honce).
  - intros Hnz Heq. cbn [twice once BiasEditing.bias] in Heq.
    apply zip_with_add_fixed in Heq.
    + rewrite Forall_forall in Heq. rewrite Exists_exists in Hnz.
      destruct Hnz as (x & Hin & Hx). apply Hx. apply Heq. exact Hin.
    + transitivity nf; [exact Honce | symmetry; exact Hprod].
  - apply (change_bias_attn_row weight nf Hd Hrows Hcols Hhid r
             (BiasEditing.reset_bias_attn org_bias once) Hr Hb).
Qed.

Lemma change_bias_attn_compounds_witness :
  let weight : matrix R := [[1; 0; 1]; [0; 1; 1]]%R in
  let r : vector R := [5; 6]%R in
  let w := {| BiasEditing.ln_1 := no_hooks None;
              BiasEditing.bias := [1; 2; 3]%R |} in
  let product := BiasEditing.vecmat 3 r weight in
  let once :=
    {| BiasEditing.ln_1 := no_hooks None;
       BiasEditing.bias := zip_with Rplus [1; 2; 3]%R product |} in
  let twice :=
    {| BiasEditing.ln_1 := no_hooks None;
       BiasEditing.bias :=
         zip_with Rplus (zip_with Rplus [1; 2; 3]%R product) product |} in
  BiasEditing.change_bias_attn weight 3 [[r]] w = (Ok tt, once) /\
  BiasEditing.change_bias_attn weight 3 [[r]] once = (Ok tt, twice) /\
  BiasEditing.bias twice <> BiasEditing.bias once /\
  BiasEditing.change_bias_attn weight 3 [[r]]
    (BiasEditing.reset_bias_attn [1; 2; 3]%R once) = (Ok tt, once).
Proof.
  intros weight r w product once twice.
  destruct (change_bias_attn_compounds weight 3 2 r w)
    as (H1 & H2 & H3 & H4);
    try reflexivity; try lia.
  - repeat constructor.
  - split; [exact H1 | split; [exact H2 | split; [|exact H4]]].
    apply H3. left. cbn. lra.
Defined.

Section DecodeTokens.
Variables Tok Obs1 Obs2 : Type.
Variable step1 : list Tok -> Obs1 * Tok.
Variable step2 : list Tok -> Obs2 * Tok.
Variable is_eos : Tok -> bool.

Hypothesis same_token : forall toks, snd (step1 toks) = snd (step2 toks).

(** The text decoded depends on the tokens chosen only. *)
Lemma decode_from_tokens : forall n toks seen1 seen2,
  fst (decode_from step1 is_eos n toks seen1) =
  fst (decode_from step2 is_eos n toks seen2).
Proof.
  induction n as [|n IH]; intros toks seen1 seen2; simpl; [reflexivity|].
  pose proof (same_token toks) as Htok.
  destruct (step1 toks) as [o1 t1], (step2 toks) as [o2 t2].
  simpl in Htok. subst t2.
  destruct (is_eos t1); [reflexivity | apply IH].
Qed.

End DecodeTokens.

Section BiasEquivalence.
Variables Tok X : Type.
Variable embed : list Tok -> X.
Variable ln : X -> pyval R.
Variable act : X -> tensor R.
Variable finish : X -> tensor R -> Tok.
Variable is_eos : Tok -> bool.
Variable weight : matrix R.
Variables nf Hd : nat.
Hypothesis weight_rows : length weight = Hd.
Hypothesis weight_cols : Forall (fun row => length row = nf) weight.
Hypothesis hidden : 2 <= Hd.
Hypothesis ln_tensor :
  forall x, ln x = PTensor (act x) /\ exists B S, has_shape B S Hd (act x).

(** Shifting the input of [c_attn] by [v] is shifting its bias by
    [v @ weight]. *)
Lemma c_attn_value_shift (b v : vector R) B S (t : tensor R) :
  length b = nf -> length v = Hd -> has_shape B S Hd t ->
  c_attn_value weight nf b (on_rows sadd v t) =
  c_attn_value weight nf
    (zip_with Rplus b (BiasEditing.vecmat nf v weight)) t.
Proof.
  intros Hb Hv [_ Ht]. unfold c_attn_value, on_rows.
  rewrite map_map. apply map_ext_in. intros m Hm.
  rewrite map_map. apply map_ext_in. intros row Hrow.
  rewrite Forall_forall in Ht. destruct (Ht m Hm) as [_ Hrows].
  rewrite Forall_forall in Hrows. pose proof (Hrows row Hrow) as Hlen.
  cbn [sadd R_scalar].
  rewrite (vecmat_add nf row v weight) by
    (try exact weight_cols; rewrite Hlen; symmetry; exact Hv).
  apply zip_with_add_shuffle;
    rewrite vecmat_length by exact weight_cols; exact Hb.
Qed.

Lemma forward_edited_bias (b : vector R) (w : BiasEditing.world) toks :
  forward_hooks (BiasEditing.ln_1 w) = [] ->
  BiasEditing.bias w = b -> length b = nf ->
  BiasEditing.forward embed ln finish weight nf toks w =
  (Ok (PTensor (act (embed toks)),
       finish (embed toks) (c_attn_value weight nf b (act (embed toks)))), w).
Proof.
  intros Hhooks Hbias Hb. unfold BiasEditing.forward.
  rewrite (call_module_no_hooks _ _ _ Hhooks).
  destruct (ln_tensor (embed toks)) as [-> (B & S & Hact)].
  rewrite Hbias.
  rewrite (c_attn_rows weight nf Hd weight_rows weight_cols hidden
             b B S _ Hb Hact).
  destruct w as [reg b']. cbn [BiasEditing.ln_1 BiasEditing.bias] in *.
  subst b'. reflexivity.
Qed.

Lemma forward_traced (b v : vector R) id (w : BiasEditing.world) toks :
  forward_hooks (BiasEditing.ln_1 w) =
    [(id, Baukit.retain_hook (Some (BiasEditing.act_add [[v]])))] ->
  BiasEditing.bias w = b -> length b = nf -> length v = Hd ->
  exists w',
    BiasEditing.forward embed ln finish weight nf toks w =
    (Ok (PTensor (on_rows sadd v (act (embed toks))),
         finish (embed toks)
           (c_attn_value weight nf (zip_with Rplus b (BiasEditing.vecmat nf v weight))
                (act (embed toks)))), w') /\
    forward_hooks (BiasEditing.ln_1 w') =
      [(id, Baukit.retain_hook (Some (BiasEditing.act_add [[v]])))] /\
    BiasEditing.bias w' = b.
Proof.
  intros Hhooks Hbias Hb Hv. unfold BiasEditing.forward, call_module.
  rewrite Hhooks. cbn [run_hooks].
  destruct (ln_tensor (embed toks)) as [-> (B & S & Hact)].
  unfold Baukit.retain_hook at 1. unfold BiasEditing.act_add.
  rewrite (padd_tensor B S Hd v _ Hact Hv).
  rewrite Hbias.
  rewrite (c_attn_rows weight nf Hd weight_rows weight_cols hidden
             b B S _ Hb (on_rows_shape sadd B S Hd _ v Hact Hv)).
  fold (c_attn_value weight nf b (on_rows sadd v (act (embed toks)))).
  rewrite (c_attn_value_shift b v B S _ Hb Hv Hact).
  eexists. split; [reflexivity|].
  cbn [BiasEditing.ln_1 BiasEditing.bias forward_hooks].
  split; reflexivity.
Qed.

(** C3, in exact arithmetic.  When tensors hold real numbers, editing the
    bias of [attn.c_attn] and adding the steering vector to the output of
    [ln_1] generate the same text.  With [c_attn] exactly affine after
    [ln_1] (a weight of [Hd] rows and [nf] columns, a bias of length [nf],
    [2 <= Hd]), a layer norm that returns tensors of hidden size [Hd] and
    no hook on it, the cell
    [change_bias_attn(coeff*steering_vec); generate; reset_bias_attn] and
    the cell [with Trace(ln_1, edit_output=act_add(coeff*steering_vec)):
    generate] both succeed and return the same tokens.  The equality rests
    on associativity and distributivity of the real numbers; IEEE floats
    have neither, and there the two cells can return different tokens
    (see the section on floats below). *)
Theorem bias_edit_equals_injection
    (coeff : R) (r : vector R) (n : nat) (toks : list Tok)
    (w : BiasEditing.world) :
  length r = Hd ->
  forward_hooks (BiasEditing.ln_1 w) = [] ->
  length (BiasEditing.bias w) = nf ->
  exists text,
    generated
      (BiasEditing.steer_by_bias embed ln finish is_eos weight nf
         (BiasEditing.bias w) coeff [[r]] n toks w) = Ok text /\
    generated
      (BiasEditing.steer_by_trace embed ln finish is_eos weight nf
         coeff [[r]] n toks w) = Ok text.
Proof.
  intros Hr Hhooks Hb.
  set (v := map (smul coeff) r).
  assert (Hv : length v = Hd) by (unfold v; rewrite length_map; exact Hr).
  set (b := BiasEditing.bias w).
  set (b' := zip_with Rplus b (BiasEditing.vecmat nf v weight)).
  assert (Hb' : length b' = nf).
  { unfold b'. rewrite zip_with_length; [exact Hb|].
    rewrite vecmat_length by exact weight_cols. exact Hb. }
  set (step_bias := fun toks' : list Tok =>
         (PTensor (act (embed toks')),
          finish (embed toks') (c_attn_value weight nf b' (act (embed toks'))))).
  set (step_trace := fun toks' : list Tok =>
         (PTensor (on_rows sadd v (act (embed toks'))),
          finish (embed toks') (c_attn_value weight nf b' (act (embed toks'))))).
  exists (fst (decode step_bias is_eos n toks)). split.
  - unfold BiasEditing.steer_by_bias.
    rewrite tscale_row. fold v.
    rewrite (change_bias_attn_row weight nf Hd weight_rows weight_cols
               hidden v w Hv Hb).
    fold b b'.
    set (w1 := {| BiasEditing.ln_1 := BiasEditing.ln_1 w;
                  BiasEditing.bias := b' |}).
    unfold generate.
    destruct (generate_from_decode _ _ _
                (BiasEditing.forward embed ln finish weight nf) is_eos
                step_bias (fun w' => w' = w1))
      with (n := n) (toks := toks) (seen := @nil (pyval R)) (w := w1)
      as (w' & -> & ->); [|reflexivity|reflexivity].
    intros toks' ? ->. exists w1. split; [|reflexivity].
    apply forward_edited_bias; [exact Hhooks | reflexivity | exact Hb'].
  - unfold BiasEditing.steer_by_trace, BiasEditing.with_Trace.
    rewrite tscale_row. fold v.
    cbn [register_forward_hook next_id forward_hooks mem].
    rewrite Hhooks. cbn [app].
    set (hs := [(next_id (BiasEditing.ln_1 w),
                 Baukit.retain_hook (Some (BiasEditing.act_add [[v]])))]).
    unfold generate.
    match goal with
    | |- context [generate_from ?f ?e n toks [] ?w1] =>
        destruct (generate_from_decode _ _ _ f e step_trace
                    (fun w' => forward_hooks (BiasEditing.ln_1 w') = hs /\
                               BiasEditing.bias w' = b))
          with (n := n) (toks := toks) (seen := @nil (pyval R)) (w := w1)
          as (w' & -> & _)
    end.
    + intros toks' w0 [Hhs Hb0].
      destruct (forward_traced b v _ w0 toks' Hhs Hb0 Hb Hv)
        as (w0' & Hfwd & Hhs' & Hb0').
      exists w0'. split; [exact Hfwd | split; assumption].
    + split; reflexivity.
    + unfold generated. cbn [fst fmap bind]. f_equal.
      apply decode_from_tokens. intros toks'. reflexivity.
Qed.

End BiasEquivalence.

Lemma bias_edit_equals_injection_witness :
  let embed := fun toks : list nat => toks in
  let act := fun x : list nat => [map (fun t => [INR t; 1%R]) x] in
  let ln := fun x : list nat => PTensor (act x) : pyval R in
  let finish := fun (x : list nat) (qkv : tensor R) =>
    match qkv with
    | ((u :: _) :: _) :: _ => if Rle_dec u 10 then length x else 3
    | _ => 3
    end in
  let is_eos := fun t : nat => t =? 3 in
  let weight : matrix R := [[1; 0; 1]; [0; 1; 1]]%R in
  let w := {| BiasEditing.ln_1 := no_hooks None;
              BiasEditing.bias := [1; 2; 3]%R |} in
  exists text,
    generated
      (BiasEditing.steer_by_bias embed ln finish is_eos weight 3
         [1; 2; 3]%R 10%R [[[5; 6]%R]] 10 [7] w) = Ok text /\
    generated
      (BiasEditing.steer_by_trace embed ln finish is_eos weight 3
         10%R [[[5; 6]%R]] 10 [7] w) = Ok text.
Proof.
  intros embed act ln finish is_eos weight w.
  apply (bias_edit_equals_injection nat (list nat) embed ln act finish
           is_eos weight 3 2).
  - reflexivity.
  - repeat constructor.
  - lia.
  - intros x. split; [reflexivity|]. exists 1, (length x). split.
    + reflexivity.
    + constructor; [|constructor]. split.
      * unfold act. cbn [hd]. apply length_map.
      * apply Forall_map. apply Forall_forall. intros; reflexivity.
  - reflexivity.
  - reflexivity.
  - reflexivity.
Defined.

(** * Further properties of the notebooks *)

(** ** Generation from related states *)

Section RelatedGeneration.
Variables Tok Obs W1 W2 : Type.
Variable fwd1 : list Tok -> W1 -> result (Obs * Tok) * W1.
Variable fwd2 : list Tok -> W2 -> result (Obs * Tok) * W2.
Variable is_eos : Tok -> bool.
Variable related : W1 -> W2 -> Prop.

Hypothesis fwd_same : forall toks w1 w2,
  related w1 w2 ->
  fst (fwd1 toks w1) = fst (fwd2 toks w2) /\
  related (snd (fwd1 toks w1)) (snd (fwd2 toks w2)).

(** Two models whose forward evaluations agree on related states return
    the same from [generate], error or text, and end in related states. *)
Lemma generate_from_same : forall n toks seen w1 w2,
  related w1 w2 ->
  fst (generate_from fwd1 is_eos n toks seen w1) =
  fst (generate_from fwd2 is_eos n toks seen w2) /\
  related (snd (generate_from fwd1 is_eos n toks seen w1))
          (snd (generate_from fwd2 is_eos n toks seen w2)).
Proof.
  induction n as [|n IH]; intros toks seen w1 w2 Hrel; simpl.
  - split; [reflexivity | exact Hrel].
  - destruct (fwd_same toks w1 w2 Hrel) as [Hfst Hrel'].
    destruct (fwd1 toks w1) as [[[o1 t1]|e1] w1'];
      destruct (fwd2 toks w2) as [[[o2 t2]|e2] w2'];
      simpl in Hfst, Hrel'; try discriminate.
    + injection Hfst as -> ->.
      destruct (is_eos t2).
      * split; [reflexivity | exact Hrel'].
      * apply IH; exact Hrel'.
    + injection Hfst as ->. split; [reflexivity | exact Hrel'].
Qed.

End RelatedGeneration.

(** ** The mechanisms side by side *)

Section Mechanisms.
Context {T : Type} `{Scalar T}.
Variables Tok X : Type.
Variable embed : list Tok -> X.
Variable point : X -> pyval T.
Variable finish : X -> pyval T -> Tok.
Variable is_eos : Tok -> bool.

Lemma add_to_first_not_None (v : tensor T) out o :
  add_to_first v out = Ok o -> exists items, o = PTuple items.
Proof.
  unfold add_to_first. intros Hadd.
  destruct (getitem0 out) as [x|e]; [|discriminate]. cbn [bind] in Hadd.
  destruct (padd x v) as [y|e]; [|discriminate]. cbn [bind] in Hadd.
  destruct (slice_from1 out) as [rest|e]; [|discriminate].
  cbn [bind] in Hadd.
  destruct rest; try discriminate.
  injection Hadd as <-. eexists; reflexivity.
Qed.

Lemma forward_hook_steered (v : tensor T) id (w : PytorchHooks.world) toks :
  forward_hooks w = [(id, PytorchHooks.act_add v)] ->
  forward embed point finish toks w = (steered_forward embed point finish v toks, w).
Proof.
  intros Hhooks. unfold forward, call_module, steered_forward.
  rewrite Hhooks. cbn [run_hooks]. unfold PytorchHooks.act_add.
  destruct w as [hs nid m]. cbn [forward_hooks next_id mem] in *. subst hs.
  destruct (add_to_first v (point (embed toks))) as [o|e] eqn:Hadd;
    [|reflexivity].
  destruct (add_to_first_not_None _ _ _ Hadd) as [items ->]. reflexivity.
Qed.

Lemma forward_trace_steered (v : tensor T) id (w : Baukit.world) toks :
  forward_hooks w = [(id, Baukit.retain_hook (Some (Baukit.act_add v)))] ->
  fst (forward embed point finish toks w) = steered_forward embed point finish v toks /\
  forward_hooks (snd (forward embed point finish toks w)) = forward_hooks w.
Proof.
  intros Hhooks. unfold forward, call_module, steered_forward.
  rewrite Hhooks. cbn [run_hooks]. unfold Baukit.retain_hook, Baukit.act_add.
  destruct (add_to_first v (point (embed toks))) as [o|e] eqn:Hadd.
  - destruct (add_to_first_not_None _ _ _ Hadd) as [items ->].
    split; reflexivity.
  - split; reflexivity.
Qed.

Lemma forward_wrapper_steered (v : tensor T) o toks :
  CustomWrapper.forward embed point finish toks
    (CustomWrapper.WrappedModule CustomWrapper.Block o (Some v)) =
  (steered_forward embed point finish v toks,
   CustomWrapper.WrappedModule CustomWrapper.Block (point (embed toks))
     (Some v)).
Proof.
  unfold CustomWrapper.forward, steered_forward.
  cbn [CustomWrapper.call_slot].
  destruct (add_to_first v (point (embed toks))); reflexivity.
Qed.

End Mechanisms.

Section MechanismsAgree.
Context {T : Type} `{Scalar T}.
Variables Tok X : Type.
Variable embed : list Tok -> X.
Variable point : X -> pyval T.
Variable finish : X -> pyval T -> Tok.
Variable is_eos : Tok -> bool.

(** X1.  The steering cells of pytorch_hooks.ipynb, of its baukit variant
    and of custom_wrapper.ipynb return the same: for every block, steering
    vector, coefficient, prompt and token budget, the three cells return
    the same tokens and the same propagated values, or raise the same
    exception. *)
Theorem steering_cells_agree
    (coeff : T) (steering_vec : tensor T) (n : nat) (toks : list Tok)
    (cache : list (pyval T)) (retained : option (pyval T)) :
  fst (PytorchHooks.steer embed point finish is_eos coeff steering_vec
         n toks (no_hooks cache))
    = fst (Baukit.steer embed point finish is_eos coeff steering_vec
             n toks (no_hooks retained))
  /\
  fst (PytorchHooks.steer embed point finish is_eos coeff steering_vec
         n toks (no_hooks cache))
    = fst (CustomWrapper.steer embed point finish is_eos coeff steering_vec
             n toks (CustomWrapper.wrap CustomWrapper.Block)).
Proof.
  set (v := tscale coeff steering_vec).
  set (w_hook := snd (register_forward_hook (PytorchHooks.act_add v)
                        (no_hooks cache))).
  assert (Hhook : fst (PytorchHooks.steer embed point finish is_eos coeff
                         steering_vec n toks (no_hooks cache))
                  = fst (generate (forward embed point finish) is_eos
                           n toks w_hook)).
  { unfold PytorchHooks.steer. fold v.
    cbn [register_forward_hook no_hooks next_id forward_hooks mem app].
    change {| forward_hooks := [(0, PytorchHooks.act_add v)];
              next_id := 1; mem := cache |} with w_hook.
    destruct (generate (forward embed point finish) is_eos n toks w_hook)
      as [[r|e] w2]; reflexivity. }
  rewrite Hhook. split.
  - unfold Baukit.steer, Baukit.with_Trace. fold v.
    cbn [register_forward_hook no_hooks next_id forward_hooks mem app].
    match goal with
    | |- _ = fst (let (r, w2) := generate ?f ?e n toks ?w1 in _) =>
        transitivity (fst (generate f e n toks w1));
        [|destruct (generate f e n toks w1); reflexivity];
        apply (generate_from_same _ _ _ _
                 (@forward T Tok X (list (pyval T)) embed point finish) f e
                 (fun (a : PytorchHooks.world) (b : Baukit.world) =>
                    forward_hooks a = [(0, PytorchHooks.act_add v)] /\
                    forward_hooks b =
                      [(0, Baukit.retain_hook (Some (Baukit.act_add v)))]))
    end; [|split; reflexivity].
    intros toks' a b [Ha Hb].
    rewrite (forward_hook_steered _ _ embed point finish v 0 a toks' Ha).
    destruct (forward_trace_steered _ _ embed point finish v 0 b toks' Hb)
      as [-> Hkeep].
    cbn [fst snd]. rewrite Hkeep. split; [reflexivity | split; assumption].
  - unfold CustomWrapper.steer, CustomWrapper.wrap.
    cbn [CustomWrapper.set_steering_vec]. fold v.
    apply (generate_from_same _ _ _ _
             (forward embed point finish)
             (CustomWrapper.forward embed point finish) is_eos
             (fun (a : PytorchHooks.world) (s : CustomWrapper.slot) =>
                forward_hooks a = [(0, PytorchHooks.act_add v)] /\
                exists o, s = CustomWrapper.WrappedModule
                                CustomWrapper.Block o (Some v)));
      [|split; [reflexivity | eexists; reflexivity]].
    intros toks' a s [Ha [o ->]].
    rewrite (forward_hook_steered _ _ embed point finish v 0 a toks' Ha).
    rewrite forward_wrapper_steered.
    cbn [fst snd]. split; [reflexivity|].
    split; [exact Ha | eexists; reflexivity].
Qed.

End MechanismsAgree.

(** ** The wrapper *)

Section WrapperFacts.
Context {T : Type} `{Scalar T}.
Variables Tok X : Type.
Variable embed : list Tok -> X.
Variable point : X -> pyval T.
Variable finish : X -> pyval T -> Tok.
Variable is_eos : Tok -> bool.

(** X2.  A [WrappedModule] whose [steering_vec] is [None] is transparent:
    whatever the slot held (the block or other wrappers), generation
    through the wrapped slot returns the tokens and propagated values, or
    raises the exception, of generation through the slot itself. *)
Theorem wrapper_without_steering_is_transparent
    (s : CustomWrapper.slot (T:=T)) (n : nat) (toks : list Tok) :
  fst (generate (CustomWrapper.forward embed point finish) is_eos n toks
         (CustomWrapper.wrap s))
    = fst (generate (CustomWrapper.forward embed point finish) is_eos n toks
             s).
Proof.
  unfold CustomWrapper.wrap.
  apply (generate_from_same _ _ _ _
           (CustomWrapper.forward embed point finish)
           (CustomWrapper.forward embed point finish) is_eos
           (fun a b => exists o, a = CustomWrapper.WrappedModule b o None));
    [|eexists; reflexivity].
  intros toks' a b [o ->]. unfold CustomWrapper.forward.
  cbn [CustomWrapper.call_slot].
  destruct (CustomWrapper.call_slot (point (embed toks')) b) as [[r|e] b'];
    cbn [fst snd]; (split; [reflexivity | eexists; reflexivity]).
Qed.

(** X3.  The steering of custom_wrapper.ipynb stays on: a [generate] call
    made after the steering cell, without touching the wrapper, returns
    what the steering cell itself returns for that prompt and budget. *)
Theorem wrapper_steering_persists
    (coeff : T) (steering_vec : tensor T) (n n' : nat)
    (toks toks' : list Tok) :
  fst (generate (CustomWrapper.forward embed point finish) is_eos n' toks'
         (snd (CustomWrapper.steer embed point finish is_eos coeff
                 steering_vec n toks
                 (CustomWrapper.wrap CustomWrapper.Block))))
    = fst (CustomWrapper.steer embed point finish is_eos coeff steering_vec
             n' toks' (CustomWrapper.wrap CustomWrapper.Block)).
Proof.
  unfold CustomWrapper.steer, CustomWrapper.wrap.
  cbn [CustomWrapper.set_steering_vec].
  set (v := tscale coeff steering_vec).
  destruct (wrapped_block_kept _ _ embed is_eos point finish n toks PNone
              (Some v)) as [o ->].
  apply (generate_from_same _ _ _ _
           (CustomWrapper.forward embed point finish)
           (CustomWrapper.forward embed point finish) is_eos
           (fun a b =>
              (exists o, a = CustomWrapper.WrappedModule
                               CustomWrapper.Block o (Some v)) /\
              (exists o, b = CustomWrapper.WrappedModule
                               CustomWrapper.Block o (Some v))));
    [|split; eexists; reflexivity].
  intros toks0 a b [[oa ->] [ob ->]].
  rewrite !forward_wrapper_steered. cbn [fst snd].
  split; [reflexivity | split; eexists; reflexivity].
Qed.

End WrapperFacts.

(** ** Capture cells and clean-up *)

Section CaptureCells.
Context {T : Type} `{Scalar T}.
Variables Tok X : Type.
Variable embed : list Tok -> X.
Variable point : X -> pyval T.
Variable finish : X -> pyval T -> Tok.
Variable is_eos : Tok -> bool.

Lemma filter_fresh_handle M (hs : list (nat * hook T M)) (id : nat) h :
  Forall (fun p => fst p < id) hs ->
  filter (fun p => negb (fst p =? id)) (hs ++ [(id, h)]) = hs.
Proof.
  intros Hwf. rewrite filter_app. cbn [filter fst].
  rewrite Nat.eqb_refl. cbn [negb]. rewrite app_nil_r.
  induction Hwf as [|p hs Hp _ IH]; [reflexivity|].
  cbn [filter]. replace (fst p =? id) with false
    by (symmetry; apply Nat.eqb_neq; lia).
  cbn [negb]. rewrite IH. reflexivity.
Qed.

(** X4.  The capture cell of pytorch_hooks.ipynb on a model without
    hooks.  When both block outputs have an entry 0, the cell returns the
    entry 0 of the output for the first prompt as [act_love] and that for
    the second prompt as [act_hate], and leaves no hook behind.  When the
    output for the first prompt has no entry 0, the cell raises and
    [cache_hook] stays registered. *)
Theorem get_activations_reads_both_in_order
    (love hate : list Tok) (w : PytorchHooks.world) :
  forward_hooks w = [] ->
  (forall x_love x_hate,
      getitem0 (point (embed love)) = Ok x_love ->
      getitem0 (point (embed hate)) = Ok x_hate ->
      PytorchHooks.get_activations embed point finish love hate w =
      (Ok (x_love, x_hate),
       {| forward_hooks := []; next_id := S (next_id w);
          mem := [x_love; x_hate] |}))
  /\
  (forall e,
      getitem0 (point (embed love)) = Raise e ->
      PytorchHooks.get_activations embed point finish love hate w =
      (Raise e,
       {| forward_hooks := [(next_id w, PytorchHooks.cache_hook)];
          next_id := S (next_id w); mem := [] |})).
Proof.
  intros Hhooks. split.
  - intros x_love x_hate Hlove Hhate.
    unfold PytorchHooks.get_activations, forward, call_module.
    cbn [register_forward_hook forward_hooks next_id mem snd fst].
    rewrite Hhooks. cbn [app run_hooks].
    unfold PytorchHooks.cache_hook at 1. rewrite Hlove.
    cbn [forward_hooks next_id mem run_hooks app].
    unfold PytorchHooks.cache_hook at 1. rewrite Hhate.
    unfold remove. cbn [forward_hooks next_id mem filter fst].
    rewrite Nat.eqb_refl. reflexivity.
  - intros e Hlove.
    unfold PytorchHooks.get_activations, forward, call_module.
    cbn [register_forward_hook forward_hooks next_id mem snd fst].
    rewrite Hhooks. cbn [app run_hooks].
    unfold PytorchHooks.cache_hook at 1. rewrite Hlove. reflexivity.
Qed.

(** X5.  The capture cell of the baukit variant on a model without hooks
    returns [output[0]] of the block's output for the prompt (or raises
    what [output[0]] raises), and the [Trace] has removed its hook in
    either case. *)
Theorem Trace_capture_reads_output
    (toks : list Tok) (w : Baukit.world) :
  forward_hooks w = [] ->
  Baukit.get_activation embed point finish toks w =
  (getitem0 (point (embed toks)),
   {| forward_hooks := []; next_id := S (next_id w);
      mem := Some (point (embed toks)) |}).
Proof.
  intros Hhooks.
  unfold Baukit.get_activation, Baukit.with_Trace, forward, call_module.
  cbn [register_forward_hook forward_hooks next_id mem snd fst].
  rewrite Hhooks. cbn [app run_hooks Baukit.retain_hook].
  destruct (point (embed toks)); unfold remove;
    cbn [forward_hooks next_id mem filter fst];
    rewrite Nat.eqb_refl; reflexivity.
Qed.

(** X6.  A steering cell of pytorch_hooks.ipynb that raises leaves its
    hook behind: [handle.remove()] is not reached, the registry holds
    [act_add(coeff*steering_vec)], and every later forward evaluation still
    adds the vector (or raises as the addition does). *)
Theorem failed_steering_cell_leaves_hook
    (coeff : T) (steering_vec : tensor T) (n : nat) (toks : list Tok)
    (cache : list (pyval T)) (e : exn) (w' : PytorchHooks.world) :
  PytorchHooks.steer embed point finish is_eos coeff steering_vec n toks
    (no_hooks cache) = (Raise e, w') ->
  forward_hooks w' =
    [(0, PytorchHooks.act_add (tscale coeff steering_vec))] /\
  forall toks',
    forward embed point finish toks' w' =
    (steered_forward embed point finish (tscale coeff steering_vec) toks',
     w').
Proof.
  intros Hsteer. unfold PytorchHooks.steer in Hsteer.
  cbn [register_forward_hook no_hooks next_id forward_hooks mem app]
    in Hsteer.
  match type of Hsteer with
  | context [generate ?f ?g ?k ?t ?w1] =>
      pose proof (generate_keeps_hooks _ _ embed g _ point finish _ k t w1
                    eq_refl) as Hkeep;
      destruct (generate f g k t w1) as [[r0|e0] w2]
  end; inversion Hsteer; subst; clear Hsteer.
  cbn [snd] in Hkeep. split; [exact Hkeep|].
  intros toks'. apply (forward_hook_steered _ _ embed point finish _ 0).
  exact Hkeep.
Qed.

(** X7.  A [Trace] removes its hook on every exit.  After the steering
    cell of the baukit variant the hooks of the block are those it had
    before, whether generation returned or raised; on a model that had no
    hook, every later generation is the baseline. *)
Theorem Trace_steering_cell_always_cleans_up
    (coeff : T) (steering_vec : tensor T) (n : nat) (toks : list Tok)
    (w : Baukit.world) :
  Forall (fun p => fst p < next_id w) (forward_hooks w) ->
  forward_hooks
    (snd (Baukit.steer embed point finish is_eos coeff steering_vec
            n toks w)) = forward_hooks w /\
  (forward_hooks w = [] ->
   forall n' toks',
     fst (generate (forward embed point finish) is_eos n' toks'
            (snd (Baukit.steer embed point finish is_eos coeff steering_vec
                    n toks w)))
       = fst (generate (forward embed point finish) is_eos n' toks' w)).
Proof.
  intros Hwf.
  assert (Hclean : forward_hooks
            (snd (Baukit.steer embed point finish is_eos coeff steering_vec
                    n toks w)) = forward_hooks w).
  { unfold Baukit.steer, Baukit.with_Trace.
    cbn [register_forward_hook next_id forward_hooks mem].
    match goal with
    | |- context [generate ?f ?g ?k ?t ?w1] =>
        pose proof (generate_keeps_hooks _ _ embed g _ point finish _ k t w1
                      eq_refl) as Hkeep;
        destruct (generate f g k t w1) as [r w2]
    end.
    cbn [snd] in *. unfold remove. cbn [forward_hooks].
    rewrite Hkeep. apply filter_fresh_handle. exact Hwf. }
  split; [exact Hclean|].
  intros Hnone n' toks'.
  rewrite (generate_no_hooks _ _ embed finish is_eos _ point _
             (eq_trans Hclean Hnone)).
  rewrite (generate_no_hooks _ _ embed finish is_eos _ point w Hnone).
  reflexivity.
Qed.

End CaptureCells.

Lemma get_activations_reads_both_in_order_witness :
  let embed := fun toks : list nat => toks in
  let finish := fun (x : list nat) (out : pyval R) => length x in
  let block := fun x : list nat =>
    PTuple [PTensor [map (fun t => [INR t; 1%R]) x]; PObj 0] : pyval R in
  let empty := fun x : list nat => PTuple [] : pyval R in
  PytorchHooks.get_activations embed block finish [7] [8; 9] (no_hooks []) =
  (Ok (PTensor [[[INR 7; 1%R]]], PTensor [[[INR 8; 1%R]; [INR 9; 1%R]]]),
   {| forward_hooks := []; next_id := 1;
      mem := [PTensor [[[INR 7; 1%R]]];
              PTensor [[[INR 8; 1%R]; [INR 9; 1%R]]]] |})
  /\
  PytorchHooks.get_activations embed empty finish [7] [8; 9] (no_hooks []) =
  (Raise IndexError,
   {| forward_hooks := [(0, PytorchHooks.cache_hook)];
      next_id := 1; mem := [] |}).
Proof.
  intros embed finish block empty. split.
  - destruct (get_activations_reads_both_in_order nat (list nat) embed
                block finish [7] [8; 9] (no_hooks []) eq_refl)
      as [Hboth _].
    apply Hboth; reflexivity.
  - destruct (get_activations_reads_both_in_order nat (list nat) embed
                empty finish [7] [8; 9] (no_hooks []) eq_refl)
      as [_ Hleak].
    apply Hleak; reflexivity.
Defined.

Lemma Trace_capture_reads_output_witness :
  let embed := fun toks : list nat => toks in
  let finish := fun (x : list nat) (out : pyval R) => length x in
  let block := fun x : list nat =>
    PTuple [PTensor [map (fun t => [INR t; 1%R]) x]; PObj 0] : pyval R in
  Baukit.get_activation embed block finish [8; 9] (no_hooks None) =
  (getitem0 (block [8; 9]),
   {| forward_hooks := []; next_id := 1; mem := Some (block [8; 9]) |}).
Proof.
  intros embed finish block.
  apply (Trace_capture_reads_output nat (list nat) embed block finish
           [8; 9] (no_hooks None)).
  reflexivity.
Defined.

Lemma failed_steering_cell_leaves_hook_witness :
  let embed := fun toks : list nat => toks in
  let finish := fun (x : list nat) (out : pyval R) => length x in
  let is_eos := fun t : nat => t =? 3 in
  let block := fun x : list nat =>
    PTuple [PTensor [[[1; 2]; [3; 4]]]%R; PObj 0] : pyval R in
  let sv : tensor R := [[[5; 6; 7]]]%R in
  let w' := snd (PytorchHooks.steer embed block finish is_eos 10%R sv 10 [7]
                   (no_hooks [])) in
  forward_hooks w' = [(0, PytorchHooks.act_add (tscale 10%R sv))] /\
  forall toks',
    forward embed block finish toks' w' =
    (steered_forward embed block finish (tscale 10%R sv) toks', w').
Proof.
  intros embed finish is_eos block sv w'.
  apply (failed_steering_cell_leaves_hook nat (list nat) embed block finish
           is_eos 10%R sv 10 [7] [] ShapeError w').
  reflexivity.
Defined.

Lemma Trace_steering_cell_always_cleans_up_witness :
  let embed := fun toks : list nat => toks in
  let finish := fun (x : list nat) (out : pyval R) => length x in
  let is_eos := fun t : nat => t =? 3 in
  let block := fun x : list nat =>
    PTuple [PTensor [[[1; 2]; [3; 4]]]%R; PObj 0] : pyval R in
  let sv : tensor R := [[[5; 6; 7]]]%R in
  let w : Baukit.world := no_hooks None in
  forward_hooks
    (snd (Baukit.steer embed block finish is_eos 10%R sv 10 [7] w))
    = forward_hooks w /\
  forall n' toks',
    fst (generate (forward embed block finish) is_eos n' toks'
           (snd (Baukit.steer embed block finish is_eos 10%R sv 10 [7] w)))
      = fst (generate (forward embed block finish) is_eos n' toks' w).
Proof.
  intros embed finish is_eos block sv w.
  destruct (Trace_steering_cell_always_cleans_up nat (list nat) embed block
              finish is_eos 10%R sv 10 [7] w) as [Hclean Hbase].
  - constructor.
  - split; [exact Hclean | apply Hbase; reflexivity].
Defined.

(** ** Shapes that do not fit, and hooks that pile up *)

Section ShapeErrors.
Context {T : Type} `{Scalar T}.

Lemma broadcast_mismatch {A B C} (f : A -> B -> result C) xs ys :
  length xs <> length ys -> length xs <> 1 -> length ys <> 1 ->
  broadcast f xs ys = Raise ShapeError.
Proof.
  intros Hne Hx Hy. unfold broadcast.
  replace (length xs =? length ys) with false
    by (symmetry; apply Nat.eqb_neq; exact Hne).
  destruct xs as [|x1 [|x2 xs]]; destruct ys as [|y1 [|y2 ys]];
    simpl in *; try reflexivity; lia.
Qed.

Lemma tadd_hidden_mismatch B S Hd Hv (act : tensor T) (r : vector T) :
  has_shape B S Hd act -> 1 <= B -> 1 <= S ->
  length r = Hv -> Hv <> Hd -> Hv <> 1 -> Hd <> 1 ->
  tadd act [[r]] = Raise ShapeError.
Proof.
  intros [HB Hact] HB1 HS1 Hr Hne Hv1 Hd1.
  unfold tadd, pointwise. rewrite broadcast_right1.
  destruct act as [|m act]; [simpl in HB; lia|].
  pose proof (Forall_inv Hact) as [HS Hrows]. cbn [mapM].
  rewrite broadcast_right1.
  destruct m as [|row m]; [simpl in HS; lia|].
  pose proof (Forall_inv Hrows) as Hrow. cbn beta in Hrow. cbn [mapM].
  rewrite broadcast_mismatch by lia. reflexivity.
Qed.

(** X8.  A steering vector whose hidden size is neither that of the
    activation nor 1 does not broadcast: on a non-empty activation of
    hidden size other than 1, [act_add] raises a shape error, both in its
    tuple form and in its bare-tensor form. *)
Theorem act_add_hidden_mismatch_raises
    (B S Hd Hv : nat) (act : tensor T) (r : vector T)
    (rest : list (pyval T)) :
  has_shape B S Hd act -> 1 <= B -> 1 <= S ->
  length r = Hv -> Hv <> Hd -> Hv <> 1 -> Hd <> 1 ->
  Baukit.act_add [[r]] (PTuple (PTensor act :: rest)) = Raise ShapeError /\
  BiasEditing.act_add [[r]] (PTensor act) = Raise ShapeError.
Proof.
  intros Hact HB1 HS1 Hr Hne Hv1 Hd1.
  pose proof (tadd_hidden_mismatch B S Hd Hv act r Hact HB1 HS1 Hr Hne
                Hv1 Hd1) as Hadd.
  split.
  - unfold Baukit.act_add, add_to_first. cbn [getitem0 bind padd].
    rewrite Hadd. reflexivity.
  - unfold BiasEditing.act_add. cbn [padd]. rewrite Hadd. reflexivity.
Qed.

(** X9.  Hooks pile up.  When [act_add] is registered a second time
    while the first handle has not been removed, every forward evaluation
    adds both vectors, the first registered first, and both hooks stay. *)
Theorem stacked_hooks_add_both
    (Tok X : Type) (embed : list Tok -> X) (point : X -> pyval T)
    (finish : X -> pyval T -> Tok)
    (Hd : nat) (r1 r2 : vector T) (act : X -> tensor T)
    (rest : X -> list (pyval T)) (cache : list (pyval T)) :
  length r1 = Hd -> length r2 = Hd ->
  (forall x, block_output Hd (act x) (rest x) (point x)) ->
  let w1 := snd (register_forward_hook (PytorchHooks.act_add [[r1]])
                   (no_hooks cache)) in
  let w2 := snd (register_forward_hook (PytorchHooks.act_add [[r2]]) w1) in
  forall toks,
    forward embed point finish toks w2 =
    (Ok (step_with embed finish
           (fun x => PTuple (PTensor (on_rows sadd r2
                                        (on_rows sadd r1 (act x)))
                             :: rest x)) toks),
     w2).
Proof.
  intros Hr1 Hr2 Hpoint w1 w2 toks.
  unfold forward, call_module, step_with.
  cbn [w2 w1 register_forward_hook no_hooks snd forward_hooks next_id mem
       app run_hooks].
  unfold PytorchHooks.act_add at 1.
  rewrite (add_to_first_block Hd r1 _ _ _ (Hpoint (embed toks)) Hr1).
  unfold PytorchHooks.act_add at 1.
  destruct (Hpoint (embed toks)) as [_ (B & S & Hact)].
  rewrite (add_to_first_block Hd r2
             (on_rows sadd r1 (act (embed toks))) (rest (embed toks)) _
             (conj eq_refl
                (ex_intro _ B (ex_intro _ S
                   (on_rows_shape sadd B S Hd _ r1 Hact Hr1)))) Hr2).
  reflexivity.
Qed.

End ShapeErrors.

Lemma act_add_hidden_mismatch_raises_witness :
  Baukit.act_add [[[5; 6; 7]%R]]
    (PTuple [PTensor [[[1; 2]; [3; 4]]]%R; PObj 0]) = Raise ShapeError /\
  BiasEditing.act_add [[[5; 6; 7]%R]] (PTensor [[[1; 2]; [3; 4]]]%R)
    = Raise ShapeError.
Proof.
  apply (act_add_hidden_mismatch_raises 1 2 2 3
           [[[1; 2]; [3; 4]]]%R [5; 6; 7]%R [PObj 0]);
    try lia; try reflexivity.
  split; [reflexivity | repeat constructor].
Defined.

Lemma stacked_hooks_add_both_witness :
  let embed := fun toks : list nat => toks in
  let finish := fun (x : list nat) (out : pyval R) => length x in
  let act := fun x : list nat => [[[1; 2]; [3; 4]]]%R in
  let rest := fun x : list nat => [PObj 0 : pyval R] in
  let block := fun x : list nat => PTuple (PTensor (act x) :: rest x) in
  let w1 := snd (register_forward_hook (PytorchHooks.act_add [[[5; 6]%R]])
                   (no_hooks [])) in
  let w2 := snd (register_forward_hook (PytorchHooks.act_add [[[7; 8]%R]])
                   w1) in
  forward embed block finish [9] w2 =
  (Ok (step_with embed finish
         (fun x => PTuple (PTensor (on_rows sadd [7; 8]%R
                                      (on_rows sadd [5; 6]%R (act x)))
                           :: rest x)) [9]),
   w2).
Proof.
  intros embed finish act rest block w1 w2.
  apply (stacked_hooks_add_both nat (list nat) embed block finish 2
           [5; 6]%R [7; 8]%R act rest []).
  - reflexivity.
  - reflexivity.
  - intros x. split; [reflexivity|]. exists 1, 2. repeat constructor.
Defined.

(** ** More on the steering vector *)

Lemma last_app_nonempty {A} (d : A) : forall p m : list A,
  m <> [] -> last (p ++ m) d = last m d.
Proof.
  induction p as [|x p IH]; intros m Hm; [reflexivity|].
  cbn [app]. specialize (IH m Hm).
  destruct (p ++ m) as [|y l] eqn:Hpm.
  - destruct p; [simpl in Hpm; contradiction | discriminate].
  - exact IH.
Qed.

Lemma last_slice_app {A} (p m : list A) :
  m <> [] -> last_slice (p ++ m) = last_slice m.
Proof.
  intros Hm. destruct m as [|x m]; [contradiction|].
  rewrite (last_slice_last x (p ++ x :: m))
    by (destruct p; discriminate).
  rewrite (last_slice_last x (x :: m)) by discriminate.
  rewrite last_app_nonempty by discriminate. reflexivity.
Qed.

Section SteeringVectorPositions.
Context {T : Type} `{Scalar T}.

(** X10.  Only the last position of each activation enters the steering
    vector: putting further positions in front of the sequences of either
    activation changes nothing, whether the derivation succeeds or
    raises. *)
Theorem steering_vec_ignores_earlier_positions
    (p q : matrix T) (act_love act_hate : tensor T) :
  Forall (fun m => m <> []) act_love ->
  Forall (fun m => m <> []) act_hate ->
  steering_vec (map (app p) act_love) (map (app q) act_hate)
    = steering_vec act_love act_hate.
Proof.
  intros Hlove Hhate. unfold steering_vec, slice_last.
  rewrite !map_map.
  rewrite (map_ext_in _ last_slice act_love)
    by (intros m Hm; apply last_slice_app;
        rewrite Forall_forall in Hlove; apply Hlove; exact Hm).
  rewrite (map_ext_in _ last_slice act_hate)
    by (intros m Hm; apply last_slice_app;
        rewrite Forall_forall in Hhate; apply Hhate; exact Hm).
  reflexivity.
Qed.

End SteeringVectorPositions.

Lemma steering_vec_ignores_earlier_positions_witness :
  steering_vec (map (app [[9; 9]%R]) [[[3; 4]]]%R)
               (map (app [[8; 8]; [7; 7]]%R) [[[1; 1]; [0; 0]]]%R)
    = steering_vec [[[3; 4]]]%R [[[1; 1]; [0; 0]]]%R.
Proof.
  apply (steering_vec_ignores_earlier_positions
           [[9; 9]%R] [[8; 8]; [7; 7]]%R [[[3; 4]]]%R
           [[[1; 1]; [0; 0]]]%R);
    repeat constructor; discriminate.
Defined.

(** ** Exact arithmetic: symmetries of the steering vector *)

Lemma tscale_keeps_shape {T : Type} `{Scalar T} (c : T) B S Hd
    (t : tensor T) :
  has_shape B S Hd t -> has_shape B S Hd (tscale c t).
Proof. intros Ht. apply tmap_shape. exact Ht. Qed.

Lemma zip_with_sub_swap : forall x y : list R,
  zip_with Rminus y x = map Ropp (zip_with Rminus x y).
Proof.
  induction x as [|u x IH]; intros [|v y]; simpl; try reflexivity.
  rewrite IH. f_equal. lra.
Qed.

Lemma last_position_difference_swap : forall a b : tensor R,
  last_position_difference b a = tmap Ropp (last_position_difference a b).
Proof.
  unfold last_position_difference, tmap.
  induction a as [|ma a IH]; intros [|mb b]; simpl; try reflexivity.
  rewrite IH. f_equal. f_equal. apply zip_with_sub_swap.
Qed.

Lemma sum_squares_opp (l : list R) :
  sum_squares (map Ropp l) = sum_squares l.
Proof.
  induction l as [|x l IH]; real_ops; [reflexivity|].
  rewrite IH. lra.
Qed.

Lemma tmap_tmap (f g : R -> R) (t : tensor R) :
  tmap f (tmap g t) = tmap (fun x => f (g x)) t.
Proof.
  unfold tmap. rewrite map_map. apply map_ext. intros m.
  rewrite map_map. apply map_ext. intros r. apply map_map.
Qed.

Lemma tmap_ext (f g : R -> R) (t : tensor R) :
  (forall x, f x = g x) -> tmap f t = tmap g t.
Proof.
  intros Hfg. unfold tmap.
  apply map_ext. intros m. apply map_ext. intros r.
  apply map_ext. exact Hfg.
Qed.

(** X11.  Swapping the two contrastive activations negates the steering
    vector, so steering along the swapped vector with [coeff] is steering
    along the original one with [- coeff].  Tensors are over the real
    numbers; the hypotheses are those under which the vector is
    defined. *)
Theorem steering_vec_swap_negates
    (B S1 S2 Hd : nat) (act_love act_hate : tensor R) (coeff : R) :
  has_shape B S1 Hd act_love ->
  has_shape B S2 Hd act_hate ->
  1 <= S1 -> 1 <= S2 ->
  Exists (fun x => x <> 0%R)
         (flatten (last_position_difference act_love act_hate)) ->
  exists v,
    steering_vec act_love act_hate = Ok v /\
    steering_vec act_hate act_love = Ok (tmap Ropp v) /\
    tscale coeff (tmap Ropp v) = tscale (- coeff)%R v.
Proof.
  intros Hlove Hhate HS1 HS2 Hnz.
  set (d := last_position_difference act_love act_hate) in *.
  exists (tdivs d (norm d)). split; [|split].
  - unfold steering_vec.
    rewrite (tsub_last_slices B S1 S2 Hd _ _ Hlove Hhate HS1 HS2).
    reflexivity.
  - unfold steering_vec.
    rewrite (tsub_last_slices B S2 S1 Hd _ _ Hhate Hlove HS2 HS1).
    cbn [bind]. rewrite last_position_difference_swap. fold d.
    assert (Hnorm : norm (tmap Ropp d) = norm d).
    { rewrite !norm_sum_squares. rewrite flatten_tmap.
      rewrite sum_squares_opp. reflexivity. }
    rewrite Hnorm. unfold tdivs. rewrite !tmap_tmap.
    f_equal. apply tmap_ext. intros x. real_ops.
    unfold Rdiv. lra.
  - unfold tscale. rewrite tmap_tmap. apply tmap_ext.
    intros x. real_ops. lra.
Qed.

Lemma steering_vec_swap_negates_witness :
  exists v,
    steering_vec [[[3; 4]]]%R [[[1; 1]; [0; 0]]]%R = Ok v /\
    steering_vec [[[1; 1]; [0; 0]]]%R [[[3; 4]]]%R = Ok (tmap Ropp v) /\
    tscale 10%R (tmap Ropp v) = tscale (- 10)%R v.
Proof.
  apply (steering_vec_swap_negates 1 1 2 2
           [[[3; 4]]]%R [[[1; 1]; [0; 0]]]%R 10%R).
  - split; [reflexivity | repeat constructor].
  - split; [reflexivity | repeat constructor].
  - lia.
  - lia.
  - left. real_ops. lra.
Defined.

Lemma last_map_rows (f : R -> R) : forall m : matrix R,
  last (map (map f) m) [] = map f (last m []).
Proof.
  induction m as [|r [|r' m] IH]; try reflexivity.
  exact IH.
Qed.

Lemma zip_with_sub_scale (k : R) : forall x y : list R,
  zip_with Rminus (map (Rmult k) x) (map (Rmult k) y)
    = map (Rmult k) (zip_with Rminus x y).
Proof.
  induction x as [|u x IH]; intros [|v y]; simpl; try reflexivity.
  rewrite IH. f_equal. lra.
Qed.

Lemma last_position_difference_scale (k : R) : forall a b : tensor R,
  last_position_difference (tmap (Rmult k) a) (tmap (Rmult k) b)
    = tmap (Rmult k) (last_position_difference a b).
Proof.
  unfold last_position_difference, tmap.
  induction a as [|ma a IH]; intros [|mb b]; simpl; try reflexivity.
  rewrite IH. f_equal. f_equal.
  rewrite !last_map_rows. apply zip_with_sub_scale.
Qed.

Lemma sum_squares_scale (k : R) (l : list R) :
  sum_squares (map (Rmult k) l) = (k * k * sum_squares l)%R.
Proof.
  induction l as [|x l IH]; real_ops; [lra|].
  rewrite IH. lra.
Qed.

Lemma norm_scale (k : R) (d : tensor R) :
  (0 <= k)%R -> norm (tmap (Rmult k) d) = (k * norm d)%R.
Proof.
  intros Hk. rewrite !norm_sum_squares, flatten_tmap, sum_squares_scale.
  rewrite sqrt_mult;
    [| apply Rmult_le_pos; exact Hk | apply sum_squares_nonneg].
  rewrite sqrt_square by exact Hk. reflexivity.
Qed.

(** X12.  The steering vector does not see a common positive factor:
    multiplying both activations by the same [k > 0] yields the same
    vector.  Tensors are over the real numbers; the hypotheses are those
    under which the vector is defined. *)
Theorem steering_vec_scale_invariant
    (B S1 S2 Hd : nat) (act_love act_hate : tensor R) (k : R) :
  has_shape B S1 Hd act_love ->
  has_shape B S2 Hd act_hate ->
  1 <= S1 -> 1 <= S2 ->
  Exists (fun x => x <> 0%R)
         (flatten (last_position_difference act_love act_hate)) ->
  (0 < k)%R ->
  steering_vec (tscale k act_love) (tscale k act_hate)
    = steering_vec act_love act_hate.
Proof.
  intros Hlove Hhate HS1 HS2 Hnz Hk.
  set (d := last_position_difference act_love act_hate) in *.
  assert (Hnorm : (0 < norm d)%R).
  { rewrite norm_sum_squares. apply sqrt_lt_R0.
    apply sum_squares_pos. exact Hnz. }
  unfold steering_vec.
  rewrite (tsub_last_slices B S1 S2 Hd _ _ Hlove Hhate HS1 HS2).
  rewrite (tsub_last_slices B S1 S2 Hd _ _
             (tscale_keeps_shape k B S1 Hd _ Hlove)
             (tscale_keeps_shape k B S2 Hd _ Hhate) HS1 HS2).
  cbn [bind]. fold d. f_equal.
  change (tscale k act_love) with (tmap (Rmult k) act_love).
  change (tscale k act_hate) with (tmap (Rmult k) act_hate).
  rewrite last_position_difference_scale. fold d.
  rewrite norm_scale by lra.
  unfold tdivs. rewrite tmap_tmap. apply tmap_ext.
  intros x. real_ops. field. lra.
Qed.

Lemma steering_vec_scale_invariant_witness :
  steering_vec (tscale 2%R [[[3; 4]]]%R)
               (tscale 2%R [[[1; 1]; [0; 0]]]%R)
    = steering_vec [[[3; 4]]]%R [[[1; 1]; [0; 0]]]%R.
Proof.
  apply (steering_vec_scale_invariant 1 1 2 2
           [[[3; 4]]]%R [[[1; 1]; [0; 0]]]%R 2%R).
  - split; [reflexivity | repeat constructor].
  - split; [reflexivity | repeat constructor].
  - lia.
  - lia.
  - left. real_ops. lra.
  - lra.
Defined.

(** ** More on editing the bias *)

Section BiasEditErrors.
Context {T : Type} `{Scalar T}.
Variables Tok X : Type.
Variable embed : list Tok -> X.
Variable ln : X -> pyval T.
Variable finish : X -> tensor T -> Tok.
Variable is_eos : Tok -> bool.

(** X13.  [change_bias_attn] fails before it touches the model when the
    steering vector does not squeeze to a row of the weight's height: for
    a hidden size of 1, [squeeze()] leaves a tensor without axes and
    [c_attn] raises an index error; for a vector of two or more entries
    that is not as long as the weight has rows, [c_attn] raises a shape
    error.  In both cases the bias is as before, and the steering cell
    stops there. *)
Theorem change_bias_attn_rejects_bad_vectors
    (weight : matrix T) (nf : nat) (w : BiasEditing.world) (coeff : T)
    (n : nat) (toks : list Tok) :
  (forall x,
      BiasEditing.change_bias_attn weight nf [[[x]]] w
        = (Raise IndexError, w) /\
      BiasEditing.steer_by_bias embed ln finish is_eos weight nf
        (BiasEditing.bias w) coeff [[[x]]] n toks w
        = (Raise IndexError, w))
  /\
  (forall r,
      2 <= length r -> length r <> length weight ->
      BiasEditing.change_bias_attn weight nf [[r]] w
        = (Raise ShapeError, w) /\
      BiasEditing.steer_by_bias embed ln finish is_eos weight nf
        (BiasEditing.bias w) coeff [[r]] n toks w
        = (Raise ShapeError, w)).
Proof.
  split.
  - intros x. split; reflexivity.
  - intros r Hlen Hne.
    assert (Hchange : forall v : vector T,
              2 <= length v -> length v <> length weight ->
              BiasEditing.change_bias_attn weight nf [[v]] w
                = (Raise ShapeError, w)).
    { intros v Hv Hvne. unfold BiasEditing.change_bias_attn.
      destruct v as [|x [|y v]]; simpl in Hv; try lia.
      cbn [BiasEditing.squeeze BiasEditing.c_attn_squeezed].
      unfold BiasEditing.addmm.
      destruct (Nat.eqb_spec (length (x :: y :: v)) 0) as [H0|_];
        [discriminate H0|].
      destruct (Nat.eqb_spec (length (x :: y :: v)) (length weight))
        as [He|_]; [contradiction|].
      reflexivity. }
    split; [apply Hchange; assumption|].
    unfold BiasEditing.steer_by_bias. rewrite tscale_row.
    rewrite Hchange by (rewrite length_map; assumption).
    reflexivity.
Qed.

End BiasEditErrors.

Lemma change_bias_attn_rejects_bad_vectors_witness :
  let weight : matrix R := [[1; 0; 1]; [0; 1; 1]]%R in
  let w := {| BiasEditing.ln_1 := no_hooks None;
              BiasEditing.bias := [1; 2; 3]%R |} in
  BiasEditing.change_bias_attn weight 3 [[[5; 6; 7]%R]] w
    = (Raise ShapeError, w) /\
  BiasEditing.steer_by_bias (fun toks : list nat => toks)
    (fun _ => PTensor [[[1; 2]]]%R) (fun x _ => length x)
    (fun t => t =? 3) weight 3 [1; 2; 3]%R 10%R [[[5; 6; 7]%R]] 10 [7] w
    = (Raise ShapeError, w).
Proof.
  intros weight w.
  destruct (change_bias_attn_rejects_bad_vectors nat (list nat)
              (fun toks : list nat => toks)
              (fun _ => PTensor [[[1; 2]]]%R) (fun x _ => length x)
              (fun t => t =? 3) weight 3 w 10%R 10 [7]) as [_ Hshape].
  apply (Hshape [5; 6; 7]%R); simpl; lia.
Defined.

(** ** Exact arithmetic: edits of the bias compose *)

Lemma zip_with_add_assoc : forall b p q : list R,
  length b = length p -> length b = length q ->
  zip_with Rplus (zip_with Rplus b p) q =
  zip_with Rplus b (zip_with Rplus p q).
Proof.
  induction b as [|u b IH]; intros [|v p] [|w q] Hp Hq; simpl in *;
    try discriminate; [reflexivity|].
  rewrite IH by lia. f_equal. lra.
Qed.

Lemma zip_with_scale_add (c1 c2 : R) : forall r : list R,
  zip_with Rplus (map (Rmult c1) r) (map (Rmult c2) r)
    = map (Rmult (c1 + c2)) r.
Proof.
  induction r as [|x r IH]; simpl; [reflexivity|].
  rewrite IH. f_equal. lra.
Qed.

Lemma map_scale_zip_add (k : R) : forall p q : list R,
  map (Rmult k) (zip_with Rplus p q)
    = zip_with Rplus (map (Rmult k) p) (map (Rmult k) q).
Proof.
  induction p as [|u p IH]; intros [|v q]; simpl; try reflexivity.
  rewrite IH. f_equal. lra.
Qed.

Lemma vecmat_scale (nf : nat) (k : R) : forall (x : vector R) (w : matrix R),
  BiasEditing.vecmat nf (map (Rmult k) x) w
    = map (Rmult k) (BiasEditing.vecmat nf x w).
Proof.
  assert (Hzero : map (Rmult k) (repeat 0%R nf) = repeat 0%R nf).
  { induction nf as [|m IHm]; simpl; [reflexivity|].
    rewrite IHm. f_equal. lra. }
  induction x as [|xi x IH]; intros [|wi w]; cbn [map BiasEditing.vecmat].
  - symmetry; exact Hzero.
  - symmetry; exact Hzero.
  - symmetry; exact Hzero.
  - rewrite IH, map_scale_zip_add, map_map. f_equal.
    apply map_ext. intros u. cbn [smul R_scalar]. lra.
Qed.

(** X14.  Edits of the bias add up in the coefficient.  With the weight,
    vector and bias of matching sizes, [change_bias_attn] with
    [c1*steering_vec] followed, without a reset, by [change_bias_attn]
    with [c2*steering_vec] leaves the model as one call with
    [(c1+c2)*steering_vec] does; a zero coefficient leaves the model as it
    is, and so does an edit followed by the opposite edit.  Tensors are
    over the real numbers. *)
Theorem change_bias_attn_coefficients_add
    (weight : matrix R) (nf Hd : nat) (r : vector R)
    (w : BiasEditing.world (T:=R)) (c1 c2 : R) :
  length weight = Hd ->
  Forall (fun row => length row = nf) weight ->
  2 <= Hd ->
  length r = Hd ->
  length (BiasEditing.bias w) = nf ->
  let change := fun c => BiasEditing.change_bias_attn weight nf
                           (tscale c [[r]]) in
  change c2 (snd (change c1 w)) = change (c1 + c2)%R w /\
  fst (change (c1 + c2)%R w) = Ok tt /\
  change 0%R w = (Ok tt, w) /\
  change (- c1)%R (snd (change c1 w)) = (Ok tt, w).
Proof.
  intros Hrows Hcols Hhid Hr Hb change.
  assert (Hlen : forall c, length (map (smul c) r) = Hd)
    by (intros c; rewrite length_map; exact Hr).
  assert (Hprod : forall c,
            length (BiasEditing.vecmat nf (map (smul c) r) weight) = nf)
    by (intros c; apply vecmat_length; exact Hcols).
  assert (Hchange : forall c w0, length (BiasEditing.bias w0) = nf ->
            change c w0 =
            (Ok tt,
             {| BiasEditing.ln_1 := BiasEditing.ln_1 w0;
                BiasEditing.bias :=
                  zip_with Rplus (BiasEditing.bias w0)
                    (BiasEditing.vecmat nf (map (smul c) r) weight) |})).
  { intros c w0 Hb0. unfold change. rewrite tscale_row.
    apply (change_bias_attn_row weight nf Hd Hrows Hcols Hhid _ w0
             (Hlen c) Hb0). }
  assert (Hadd : change c2 (snd (change c1 w)) = change (c1 + c2)%R w).
  { rewrite (Hchange c1 w Hb). cbn [snd].
    rewrite Hchange
      by (cbn [BiasEditing.bias]; rewrite zip_with_length;
          [exact Hb | rewrite Hprod; exact Hb]).
    rewrite (Hchange (c1 + c2)%R w Hb).
    cbn [BiasEditing.ln_1 BiasEditing.bias]. f_equal. f_equal.
    rewrite zip_with_add_assoc by (rewrite ?Hprod; exact Hb).
    f_equal.
    rewrite <- (vecmat_add nf _ _ weight)
      by (try exact Hcols; rewrite !length_map; reflexivity).
    f_equal. apply zip_with_scale_add. }
  assert (Hzero : change 0%R w = (Ok tt, w)).
  { rewrite (Hchange 0%R w Hb). f_equal.
    destruct w as [reg b]. cbn [BiasEditing.ln_1 BiasEditing.bias] in *.
    f_equal.
    change (map (smul 0%R) r) with (map (Rmult 0) r).
    rewrite vecmat_scale.
    apply (zip_with_add_zero b (BiasEditing.vecmat nf r weight)).
    rewrite vecmat_length by exact Hcols. exact Hb. }
  split; [exact Hadd|]. split; [rewrite (Hchange _ w Hb); reflexivity|].
  split; [exact Hzero|].
  assert (Hopp : change (- c1)%R (snd (change c1 w))
                 = change (c1 + - c1)%R w).
  { rewrite (Hchange c1 w Hb). cbn [snd].
    rewrite Hchange
      by (cbn [BiasEditing.bias]; rewrite zip_with_length;
          [exact Hb | rewrite Hprod; exact Hb]).
    rewrite (Hchange (c1 + - c1)%R w Hb).
    cbn [BiasEditing.ln_1 BiasEditing.bias]. f_equal. f_equal.
    rewrite zip_with_add_assoc by (rewrite ?Hprod; exact Hb).
    f_equal.
    rewrite <- (vecmat_add nf _ _ weight)
      by (try exact Hcols; rewrite !length_map; reflexivity).
    f_equal. apply zip_with_scale_add. }
  rewrite Hopp. rewrite Rplus_opp_r. exact Hzero.
Qed.

Lemma change_bias_attn_coefficients_add_witness :
  let weight : matrix R := [[1; 0; 1]; [0; 1; 1]]%R in
  let r : vector R := [5; 6]%R in
  let w := {| BiasEditing.ln_1 := no_hooks None;
              BiasEditing.bias := [1; 2; 3]%R |} in
  let change := fun c => BiasEditing.change_bias_attn weight 3
                           (tscale c [[r]]) in
  change (-10)%R (snd (change 10%R w)) = change (10 + -10)%R w /\
  fst (change (10 + -10)%R w) = Ok tt /\
  change 0%R w = (Ok tt, w) /\
  change (- 10)%R (snd (change 10%R w)) = (Ok tt, w).
Proof.
  intros weight r w.
  apply (change_bias_attn_coefficients_add weight 3 2 r w 10%R (-10)%R).
  - reflexivity.
  - repeat constructor.
  - lia.
  - reflexivity.
  - reflexivity.
Defined.

(** ** IEEE arithmetic: a steering vector of NaNs *)

Lemma SFcompare_refl s :
  s <> SpecFloat.S754_nan -> SpecFloat.SFcompare s s = Some Eq.
Proof.
  intros Hs. destruct s as [b| b | |b m e]; simpl.
  - reflexivity.
  - destruct b; reflexivity.
  - contradiction.
  - destruct b; rewrite BinInt.Z.compare_refl, BinPos.Pos.compare_refl;
      reflexivity.
Qed.

Lemma is_nan_spec x :
  PrimFloat.is_nan x = true <-> FloatOps.Prim2SF x = SpecFloat.S754_nan.
Proof.
  unfold PrimFloat.is_nan. rewrite FloatAxioms.eqb_spec.
  unfold SpecFloat.SFeqb. split.
  - intros Hnan.
    destruct (FloatOps.Prim2SF x) as [b| b | |b m e] eqn:Hx;
      try reflexivity;
      rewrite SFcompare_refl in Hnan by discriminate; discriminate.
  - intros ->. reflexivity.
Qed.

Lemma float_add_nan x y :
  PrimFloat.is_nan y = true -> PrimFloat.is_nan (sadd x y) = true.
Proof.
  rewrite !is_nan_spec. intros Hy. cbn [sadd float_scalar].
  rewrite FloatAxioms.add_spec, Hy.
  unfold FloatAxioms.SF64add, SpecFloat.SFadd.
  destruct (FloatOps.Prim2SF x); reflexivity.
Qed.

Lemma float_mul_nan x y :
  PrimFloat.is_nan y = true -> PrimFloat.is_nan (smul x y) = true.
Proof.
  rewrite !is_nan_spec. intros Hy. cbn [smul float_scalar].
  rewrite FloatAxioms.mul_spec, Hy.
  unfold FloatAxioms.SF64mul, SpecFloat.SFmul.
  destruct (FloatOps.Prim2SF x); reflexivity.
Qed.

Lemma zip_with_add_nan : forall row r : list PrimFloat.float,
  Forall (fun y => PrimFloat.is_nan y = true) r ->
  Forall (fun y => PrimFloat.is_nan y = true) (zip_with sadd row r).
Proof.
  induction row as [|x row IH]; intros [|y r] Hr; cbn [zip_with];
    try constructor.
  - apply float_add_nan. exact (Forall_inv Hr).
  - apply IH. exact (Forall_inv_tail Hr).
Qed.

(** X15.  A steering vector of NaNs, as the derivation returns for two
    activations that agree at their last positions, turns every entry of
    every activation it is added to into NaN, whatever the coefficient,
    zero included: [act_add] succeeds and returns the tuple with an
    activation of the same shape whose entries are all NaN.  Tensors are
    over IEEE floats here. *)
Theorem nan_steering_vector_poisons_activations
    (B S Hd : nat) (coeff : PrimFloat.float) (r : vector PrimFloat.float)
    (act : tensor PrimFloat.float) (rest : list (pyval PrimFloat.float)) :
  has_shape B S Hd act ->
  length r = Hd ->
  Forall (fun y => PrimFloat.is_nan y = true) r ->
  exists steered,
    Baukit.act_add (tscale coeff [[r]]) (PTuple (PTensor act :: rest))
      = Ok (PTuple (PTensor steered :: rest)) /\
    has_shape B S Hd steered /\
    Forall (fun y => PrimFloat.is_nan y = true) (flatten steered).
Proof.
  intros Hact Hr Hnan.
  assert (Hr' : length (map (smul coeff) r) = Hd)
    by (rewrite length_map; exact Hr).
  assert (Hnan' : Forall (fun y => PrimFloat.is_nan y = true)
                         (map (smul coeff) r)).
  { rewrite Forall_map. eapply Forall_impl; [|exact Hnan].
    intros y Hy. apply float_mul_nan. exact Hy. }
  exists (on_rows sadd (map (smul coeff) r) act). split; [|split].
  - unfold Baukit.act_add. rewrite tscale_row.
    apply (add_to_first_block Hd _ act rest _
             (conj eq_refl (ex_intro _ B (ex_intro _ S Hact))) Hr').
  - apply on_rows_shape; assumption.
  - unfold flatten, on_rows.
    apply Forall_concat. rewrite <- concat_map.
    rewrite Forall_map. apply Forall_forall. intros row _.
    apply zip_with_add_nan. exact Hnan'.
Qed.

Lemma nan_steering_vector_poisons_activations_witness :
  exists steered,
    Baukit.act_add (tscale PrimFloat.zero [[[PrimFloat.nan; PrimFloat.nan]]])
      (PTuple [PTensor [[[PrimFloat.one; PrimFloat.two]]]; PObj 0])
      = Ok (PTuple [PTensor steered; PObj 0]) /\
    has_shape 1 1 2 steered /\
    Forall (fun y => PrimFloat.is_nan y = true) (flatten steered).
Proof.
  apply (nan_steering_vector_poisons_activations 1 1 2 PrimFloat.zero
           [PrimFloat.nan; PrimFloat.nan]
           [[[PrimFloat.one; PrimFloat.two]]] [PObj 0]).
  - split; [reflexivity | repeat constructor].
  - reflexivity.
  - repeat constructor.
Defined.

(** ** The capture cell of bias_editing.ipynb *)

Section BiasCapture.
Context {T : Type} `{Scalar T}.
Variables Tok X : Type.
Variable embed : list Tok -> X.
Variable ln : X -> pyval T.
Variable finish : X -> tensor T -> Tok.
Variable weight : matrix T.
Variable nf : nat.

(** X16.  The capture cell of bias_editing.ipynb on a layer norm without
    hooks returns the output of the layer norm for the prompt when the
    forward evaluation succeeds, and raises what the forward evaluation
    raises otherwise; in both cases the [Trace] has removed its hook and
    the bias is untouched. *)
Theorem bias_capture_reads_layer_norm
    (toks : list Tok) (w : BiasEditing.world) :
  forward_hooks (BiasEditing.ln_1 w) = [] ->
  fst (BiasEditing.get_activation embed ln finish weight nf toks w)
    = fmap fst (fst (BiasEditing.forward embed ln finish weight nf toks w))
  /\
  (forall out tok w',
      BiasEditing.forward embed ln finish weight nf toks w
        = (Ok (out, tok), w') -> out = ln (embed toks))
  /\
  forward_hooks
    (BiasEditing.ln_1
       (snd (BiasEditing.get_activation embed ln finish weight nf toks w)))
    = []
  /\
  BiasEditing.bias
    (snd (BiasEditing.get_activation embed ln finish weight nf toks w))
    = BiasEditing.bias w.
Proof.
  intros Hhooks.
  unfold BiasEditing.get_activation, BiasEditing.with_Trace,
    BiasEditing.forward, call_module.
  cbn [register_forward_hook forward_hooks next_id mem snd fst
       BiasEditing.ln_1 BiasEditing.bias].
  rewrite Hhooks. cbn [app run_hooks Baukit.retain_hook].
  destruct (ln (embed toks)) as [t| | |] eqn:Hln;
    cbn [run_hooks fst snd BiasEditing.ln_1 BiasEditing.bias mem].
  - destruct (BiasEditing.c_attn weight nf (BiasEditing.bias w) t);
      cbn [fst snd BiasEditing.ln_1 BiasEditing.bias mem fmap bind];
      unfold remove; cbn [forward_hooks filter fst];
      rewrite Nat.eqb_refl;
      (repeat split; try reflexivity);
      intros out tok w' Heq; inversion Heq; reflexivity.
  - unfold remove; cbn [forward_hooks filter fst]; rewrite Nat.eqb_refl.
    repeat split; try reflexivity.
    intros out tok w' Heq; inversion Heq.
  - unfold remove; cbn [forward_hooks filter fst]; rewrite Nat.eqb_refl.
    repeat split; try reflexivity.
    intros out tok w' Heq; inversion Heq.
  - unfold remove; cbn [forward_hooks filter fst]; rewrite Nat.eqb_refl.
    repeat split; try reflexivity.
    intros out tok w' Heq; inversion Heq.
Qed.

End BiasCapture.

Lemma bias_capture_reads_layer_norm_witness :
  let embed := fun toks : list nat => toks in
  let ln := fun x : list nat =>
    PTensor [map (fun t => [INR t; 1%R]) x] : pyval R in
  let finish := fun (x : list nat) (out : tensor R) => length x in
  let weight : matrix R := [[1; 0; 1]; [0; 1; 1]]%R in
  let w := {| BiasEditing.ln_1 := no_hooks None;
              BiasEditing.bias := [1; 2; 3]%R |} in
  fst (BiasEditing.get_activation embed ln finish weight 3 [8; 9] w)
    = Ok (ln [8; 9]) /\
  forward_hooks
    (BiasEditing.ln_1
       (snd (BiasEditing.get_activation embed ln finish weight 3 [8; 9] w)))
    = [] /\
  BiasEditing.bias
    (snd (BiasEditing.get_activation embed ln finish weight 3 [8; 9] w))
    = [1; 2; 3]%R.
Proof.
  intros embed ln finish weight w.
  destruct (bias_capture_reads_layer_norm nat (list nat) embed ln finish
              weight 3 [8; 9] w eq_refl) as (Hfst & _ & Hhooks & Hbias).
  split; [|split; [exact Hhooks | exact Hbias]].
  rewrite Hfst. reflexivity.
Defined.

(** * IEEE arithmetic

    The notebooks compute on floating-point tensors.  Two of the
    statements proved above over the real numbers rest on laws that floats
    do not have: [x + 0 * y = x] (false for [y] NaN or infinite, and for
    [x = -0]) and [(a + v) @ W + b = a @ W + (b + v @ W)] (false up to
    rounding).  This part settles them on the float instance. *)

(** ** A zero coefficient *)

Lemma finite_not_infinity y b :
  PrimFloat.is_finite y = true ->
  FloatOps.Prim2SF y <> SpecFloat.S754_infinity b.
Proof.
  unfold PrimFloat.is_finite, PrimFloat.is_infinity. intros Hfin Hy.
  apply negb_true_iff, orb_false_iff in Hfin. destruct Hfin as [_ Hinf].
  rewrite FloatAxioms.eqb_spec, FloatAxioms.abs_spec, Hy in Hinf.
  vm_compute in Hinf. discriminate Hinf.
Qed.

Lemma finite_not_nan y :
  PrimFloat.is_finite y = true -> FloatOps.Prim2SF y <> SpecFloat.S754_nan.
Proof.
  unfold PrimFloat.is_finite. intros Hfin Hy.
  apply negb_true_iff, orb_false_iff in Hfin. destruct Hfin as [Hnan _].
  apply is_nan_spec in Hy. congruence.
Qed.

(** Zero times a finite float is a zero, of either sign. *)
Lemma float_zero_mul_finite y :
  PrimFloat.is_finite y = true ->
  exists b, FloatOps.Prim2SF (smul PrimFloat.zero y) = SpecFloat.S754_zero b.
Proof.
  intros Hfin. cbn [smul float_scalar]. rewrite FloatAxioms.mul_spec.
  pose proof (finite_not_nan y Hfin) as Hnan.
  destruct (FloatOps.Prim2SF y) as [b|b| |b m e] eqn:Hy.
  - exists b. reflexivity.
  - exfalso. exact (finite_not_infinity y b Hfin Hy).
  - exfalso. apply Hnan. reflexivity.
  - exists b. reflexivity.
Qed.

(** Adding a zero gives back every float but the negative zero. *)
Lemma float_add_zero x z b :
  x <> PrimFloat.neg_zero ->
  FloatOps.Prim2SF z = SpecFloat.S754_zero b ->
  sadd x z = x.
Proof.
  intros Hx Hz. apply FloatAxioms.Prim2SF_inj.
  cbn [sadd float_scalar]. rewrite FloatAxioms.add_spec, Hz.
  unfold FloatAxioms.SF64add, SpecFloat.SFadd.
  destruct (FloatOps.Prim2SF x) as [bx|bx| |bx m e] eqn:Ex; try reflexivity.
  destruct bx.
  - exfalso. apply Hx. apply FloatAxioms.Prim2SF_inj. rewrite Ex. reflexivity.
  - destruct b; reflexivity.
Qed.

Lemma zip_with_add_float_zero : forall row r : vector PrimFloat.float,
  length row = length r ->
  Forall (fun a => a <> PrimFloat.neg_zero) row ->
  Forall (fun y => PrimFloat.is_finite y = true) r ->
  zip_with sadd row (map (smul PrimFloat.zero) r) = row.
Proof.
  induction row as [|x row IH]; intros [|y r] Hlen Hrow Hr;
    cbn [zip_with map length] in *; try discriminate; [reflexivity|].
  destruct (float_zero_mul_finite y (Forall_inv Hr)) as [b Hb].
  rewrite (float_add_zero x _ b (Forall_inv Hrow) Hb).
  rewrite (IH r (eq_add_S _ _ Hlen) (Forall_inv_tail Hrow)
             (Forall_inv_tail Hr)).
  reflexivity.
Qed.

Lemma on_rows_float_zero B S Hd (act : tensor PrimFloat.float)
    (r : vector PrimFloat.float) :
  has_shape B S Hd act -> length r = Hd ->
  Forall (fun a => a <> PrimFloat.neg_zero) (flatten act) ->
  Forall (fun y => PrimFloat.is_finite y = true) r ->
  on_rows sadd (map (smul PrimFloat.zero) r) act = act.
Proof.
  intros [_ Hact] Hr Hnz Hfin. unfold on_rows.
  unfold flatten in Hnz. rewrite !Forall_concat in Hnz.
  rewrite Forall_forall in Hnz.
  rewrite <- (map_id act) at 2. apply map_ext_in. intros m Hm.
  rewrite <- (map_id m) at 2. apply map_ext_in. intros row Hrow.
  rewrite Forall_forall in Hact. destruct (Hact m Hm) as [_ Hrows].
  rewrite Forall_forall in Hrows.
  apply zip_with_add_float_zero.
  - rewrite (Hrows row Hrow). symmetry; exact Hr.
  - pose proof (Hnz m Hm) as Hm'. rewrite Forall_forall in Hm'.
    exact (Hm' row Hrow).
  - exact Hfin.
Qed.

(** C5, on IEEE floats.  A zero coefficient is a no-op when every entry of
    the steering vector is finite and no entry of an activation is the
    negative zero.  On a block whose output is a tuple headed by an
    activation of hidden size [Hd], the steering cell of
    pytorch_hooks.ipynb run with [coeff = 0], and the generation of
    custom_wrapper.ipynb with [0 * steering_vec] set on a wrapper, then
    return exactly what generation returns with no hook registered and no
    wrapper, tokens and propagated activations alike. *)
Theorem zero_coefficient_is_noop_on_finite_vector
    (Tok X : Type) (embed : list Tok -> X)
    (finish : X -> pyval PrimFloat.float -> Tok) (is_eos : Tok -> bool)
    (Hd : nat) (r : vector PrimFloat.float)
    (block : X -> pyval PrimFloat.float)
    (act : X -> tensor PrimFloat.float)
    (rest : X -> list (pyval PrimFloat.float))
    (cache : list (pyval PrimFloat.float)) (n : nat) (toks : list Tok) :
  length r = Hd ->
  (forall x, block_output Hd (act x) (rest x) (block x)) ->
  Forall (fun y => PrimFloat.is_finite y = true) r ->
  (forall x, Forall (fun a => a <> PrimFloat.neg_zero) (flatten (act x))) ->
  fst (PytorchHooks.steer embed block finish is_eos PrimFloat.zero [[r]]
         n toks (no_hooks cache))
    = fst (generate (forward embed block finish) is_eos n toks
             (no_hooks cache))
  /\
  fst (CustomWrapper.steer embed block finish is_eos PrimFloat.zero [[r]]
         n toks (CustomWrapper.wrap CustomWrapper.Block))
    = fst (generate (CustomWrapper.forward embed block finish) is_eos n toks
             CustomWrapper.Block).
Proof.
  intros Hr Hblock Hfin Hnz.
  apply (fixed_rows_is_noop Tok X embed finish is_eos Hd PrimFloat.zero r
           block act rest cache n toks Hr Hblock).
  intros x. destruct (Hblock x) as [_ (B & S & Hact)].
  exact (on_rows_float_zero B S Hd _ _ Hact Hr (Hnz x) Hfin).
Qed.

Lemma zero_coefficient_is_noop_on_finite_vector_witness :
  let embed := fun toks : list nat => toks in
  let act := fun x : list nat =>
    [map (fun _ : nat => [PrimFloat.one; PrimFloat.two]) x] in
  let block := fun x : list nat =>
    PTuple [PTensor (act x); PObj 0] : pyval PrimFloat.float in
  let finish := fun (x : list nat) (out : pyval PrimFloat.float) =>
    match out with
    | PTuple (PTensor (((u :: _) :: _) :: _) :: _) =>
        if PrimFloat.is_nan u then 3 else length x
    | _ => 3
    end in
  let is_eos := fun t : nat => t =? 3 in
  let r := [PrimFloat.two; PrimFloat.one] in
  fst (PytorchHooks.steer embed block finish is_eos PrimFloat.zero [[r]]
         10 [7] (no_hooks []))
    = fst (generate (forward embed block finish) is_eos 10 [7]
             (no_hooks (@nil (pyval PrimFloat.float))))
  /\
  fst (CustomWrapper.steer embed block finish is_eos PrimFloat.zero [[r]]
         10 [7] (CustomWrapper.wrap CustomWrapper.Block))
    = fst (generate (CustomWrapper.forward embed block finish) is_eos 10 [7]
             CustomWrapper.Block).
Proof.
  intros embed act block finish is_eos r.
  apply (zero_coefficient_is_noop_on_finite_vector nat (list nat) embed
           finish is_eos 2 r block act (fun _ => [PObj 0]) [] 10 [7]).
  - reflexivity.
  - intros x. split; [reflexivity|]. exists 1, (length x). split.
    + reflexivity.
    + constructor; [|constructor]. split.
      * unfold act. cbn [hd]. apply length_map.
      * apply Forall_map. apply Forall_forall. intros; reflexivity.
  - repeat constructor.
  - intros x. unfold flatten, act. cbn [concat]. rewrite app_nil_r.
    apply Forall_concat. apply Forall_map. apply Forall_forall.
    intros t _.
    repeat constructor; intros E;
      apply (f_equal FloatOps.Prim2SF) in E; vm_compute in E;
      discriminate E.
Defined.

Section FloatCounterexamples.
Import PrimFloat.

(** C5, as the claim states it, fails.  The steering vector that the
    derivation returns for two activations agreeing at the last position
    is a vector of NaNs; injected with coefficient zero it adds
    [0 * nan = nan] to the activation, and generation returns other
    tokens than without interception, through the forward hook and
    through the wrapper alike. *)
Lemma zero_coefficient_with_nan_vector_is_not_noop :
  let embed := fun toks : list nat => toks in
  let act : tensor float := [[[1; 2]]]%float in
  let block := fun _ : list nat => PTuple [PTensor act; PObj 0] in
  let finish := fun (x : list nat) (out : pyval float) =>
    match out with
    | PTuple (PTensor (((u :: _) :: _) :: _) :: _) =>
        if is_nan u then 3 else length x
    | _ => 3
    end in
  let is_eos := fun t : nat => t =? 3 in
  let steering_vec_ := [[[nan; nan]]] in
  steering_vec act act = Ok steering_vec_ /\
  generated
    (PytorchHooks.steer embed block finish is_eos 0%float steering_vec_
       3 [7] (no_hooks (@nil (pyval float)))) = Ok [7; 3] /\
  generated
    (generate (forward embed block finish) is_eos 3 [7] (no_hooks (@nil (pyval float))))
    = Ok [7; 1; 2; 3] /\
  generated
    (CustomWrapper.steer embed block finish is_eos 0%float steering_vec_
       3 [7] (CustomWrapper.wrap CustomWrapper.Block)) = Ok [7; 3] /\
  generated
    (generate (CustomWrapper.forward embed block finish) is_eos 3 [7]
       CustomWrapper.Block) = Ok [7; 1; 2; 3].
Proof.
  cbv zeta. repeat split; vm_compute; reflexivity.
Qed.

(** The negative zero is left out for a reason: [-0 + 0 * 1] is [+0], so
    a zero coefficient with a finite steering vector turns a [-0] of the
    activation into [+0], which a later division tells apart. *)
Lemma zero_coefficient_clears_negative_zero :
  let embed := fun toks : list nat => toks in
  let act : tensor float := [[[neg_zero; 1]]]%float in
  let block := fun _ : list nat => PTuple [PTensor act; PObj 0] in
  let finish := fun (x : list nat) (out : pyval float) =>
    match out with
    | PTuple (PTensor (((u :: _) :: _) :: _) :: _) =>
        if ltb (1 / u) 0 then length x else 3
    | _ => 3
    end in
  let is_eos := fun t : nat => t =? 3 in
  Baukit.act_add (tscale 0%float [[[1; 1]]]%float) (block [])
    = Ok (PTuple [PTensor [[[0; 1]]]%float; PObj 0]) /\
  generated
    (PytorchHooks.steer embed block finish is_eos 0%float [[[1; 1]]]%float
       3 [7] (no_hooks (@nil (pyval float)))) = Ok [7; 3] /\
  generated
    (generate (forward embed block finish) is_eos 3 [7] (no_hooks (@nil (pyval float))))
    = Ok [7; 1; 2; 3].
Proof.
  cbv zeta. repeat split; vm_compute; reflexivity.
Qed.

(** ** Editing the bias *)

(** C3, as the claim states it, fails on floats.  With the layer norm
    output [[0.1, 0.1]], the weight [[1], [1]], the bias [0.4], the
    steering vector [[0.1, 0]] and coefficient 1, the edited bias gives
    [(0.4 + 0.1) + (0.1 + 0.1)], the float nearest to 0.7, and the
    injection gives [0.4 + ((0.1 + 0.1) + 0.1)], the next float above it
    (the first two conjuncts); a next token that depends on which side of
    0.7 the value lies differs, and so does the generated text. *)
Lemma bias_edit_differs_from_injection_on_floats :
  let embed := fun toks : list nat => toks in
  let ln := fun _ : list nat =>
    PTensor [[[0x1.999999999999ap-4; 0x1.999999999999ap-4]]]%float in
  let finish := fun (x : list nat) (qkv : tensor float) =>
    match qkv with
    | ((u :: _) :: _) :: _ =>
        if leb u 0x1.6666666666666p-1 then length x else 3
    | _ => 3
    end in
  let is_eos := fun t : nat => t =? 3 in
  let weight := [[1]; [1]]%float in
  let org_bias := [0x1.999999999999ap-2]%float in
  let w := {| BiasEditing.ln_1 := no_hooks None;
              BiasEditing.bias := org_bias |} in
  let steering_vec_ := [[[0x1.999999999999ap-4; 0]]]%float in
  BiasEditing.c_attn weight 1 [0x1p-1]%float
      [[[0x1.999999999999ap-4; 0x1.999999999999ap-4]]]%float
    = Ok [[[0x1.6666666666666p-1]]]%float /\
  BiasEditing.c_attn weight 1 org_bias
      [[[0x1.999999999999ap-3; 0x1.999999999999ap-4]]]%float
    = Ok [[[0x1.6666666666667p-1]]]%float /\
  generated
    (BiasEditing.steer_by_bias embed ln finish is_eos weight 1
       org_bias 1%float steering_vec_ 3 [7] w) = Ok [7; 1; 2; 3] /\
  generated
    (BiasEditing.steer_by_trace embed ln finish is_eos weight 1
       1%float steering_vec_ 3 [7] w) = Ok [7; 3].
Proof.
  cbv zeta. repeat split; vm_compute; reflexivity.
Qed.

End FloatCounterexamples.
